(** * Client-side state of the blog front end (frontend/src/App.js)

    A shallow embedding of the React component [App] and of its two hooks
    [useToasts] and [useLocalStorage]:

    - the component state (one field per [useState] cell) is a record;
    - every event handler is a function on that record;
    - an [async] handler is cut at its [await]: the part before it runs when
      the event arrives and leaves a pending request carrying the values the
      closure captured, the part after it runs when the request settles;
    - [Date.now] and [setTimeout] are a millisecond clock and a timer queue.

    React renders again after every event, so a handler started by an event
    reads the state left by the previous one, while the part of a handler that
    runs after an [await] still reads the constants captured when it started.
    Functional updates ([setPosts(prev => ...)]) always read the state of the
    moment they run.

    Strings are byte strings, and [toLowerCase] folds the letters A-Z, which is
    what the built-in does on ASCII text; the general theorems below use no
    property of it, so they hold for the built-in on any text. Like counts are
    integers; the code holds them in JavaScript numbers, which agree with the
    integers as long as the values stay safe integers (below 2^53 in absolute
    value), and no theorem below relies on an arithmetic law outside that
    range. *)

From Stdlib Require Import ZArith NArith Ascii String List Bool Lia.
From stdpp Require Import base decidable list strings gmap.

Import ListNotations.
Local Set Warnings "-register-all".
Local Open Scope string_scope.
Local Open Scope list_scope.

(** ** Strings: the JavaScript built-ins the component calls *)

Module Js.

(** [c.toLowerCase()] on one byte. *)
Definition lower_ascii (c : ascii) : ascii :=
  let n := nat_of_ascii c in
  if (Nat.leb 65 n && Nat.leb n 90)%bool then ascii_of_nat (n + 32) else c.

(** [String.prototype.toLowerCase]. *)
Fixpoint toLowerCase (s : string) : string :=
  match s with
  | EmptyString => EmptyString
  | String c s' => String (lower_ascii c) (toLowerCase s')
  end.

(** [hay.startsWith(needle)]. *)
Fixpoint startsWith (hay needle : string) : bool :=
  match needle, hay with
  | EmptyString, _ => true
  | String _ _, EmptyString => false
  | String a n', String b h' => Ascii.eqb a b && startsWith h' n'
  end.

(** [String.prototype.includes]: the needle occurs at some offset. *)
Fixpoint includes (hay needle : string) : bool :=
  startsWith hay needle ||
  match hay with
  | EmptyString => false
  | String _ h' => includes h' needle
  end.

(** White space as [String.prototype.trim] sees it (the one-byte part). *)
Definition isWhiteSpace (c : ascii) : bool :=
  let n := nat_of_ascii c in
  (Nat.eqb n 32 || (Nat.leb 9 n && Nat.leb n 13))%bool.

Fixpoint trimStart (s : string) : string :=
  match s with
  | EmptyString => EmptyString
  | String c s' => if isWhiteSpace c then trimStart s' else s
  end.

Fixpoint trimEnd (s : string) : string :=
  match s with
  | EmptyString => EmptyString
  | String c s' =>
      match trimEnd s' with
      | EmptyString => if isWhiteSpace c then EmptyString else String c EmptyString
      | t => String c t
      end
  end.

(** [String.prototype.trim]. *)
Definition trim (s : string) : string := trimEnd (trimStart s).

End Js.

(** ** Data *)

(** A post as the API returns it. *)
Record Post := mkPost {
  _id : string;
  title : string;
  content : string;
  category : string;
  likes : Z;
  views : Z;
  mediaUrl : option string;
  mediaType : option string;
  createdAt : string
}.

(** [{ ...p, likes: n }]. *)
Definition withLikes (p : Post) (n : Z) : Post :=
  {| _id := _id p; title := title p; content := content p;
     category := category p; likes := n; views := views p;
     mediaUrl := mediaUrl p; mediaType := mediaType p;
     createdAt := createdAt p |}.

(** ** The derived view *)

(** The callback of [posts.filter] inside [filteredPosts]. *)
Definition matchesPost (searchTerm activeFilter : string) (post : Post) : bool :=
  let matchesSearch :=
    Js.includes (Js.toLowerCase (title post)) (Js.toLowerCase searchTerm) ||
    Js.includes (Js.toLowerCase (content post)) (Js.toLowerCase searchTerm) in
  let matchesFilter :=
    String.eqb activeFilter "all" ||
    String.eqb (Js.toLowerCase (category post)) (Js.toLowerCase activeFilter) in
  matchesSearch && matchesFilter.

(** [filteredPosts], as a function of the three values it is memoized on. *)
Definition filteredPosts (posts : list Post) (searchTerm activeFilter : string)
  : list Post :=
  List.filter (matchesPost searchTerm activeFilter) posts.

(** ** Values received from the network *)

(** The parsed body of a response ([response.data]). Arrays are arrays of
    posts, the only arrays this API sends. *)
Inductive JsVal :=
| VUndefined
| VNull
| VBool (b : bool)
| VNum (n : Z)
| VStr (s : string)
| VArr (items : list Post)
| VObj (fields : list (string * JsVal)).

(** JavaScript truthiness, as the conditional operator tests it. *)
Definition truthy (v : JsVal) : bool :=
  match v with
  | VUndefined | VNull => false
  | VBool b => b
  | VNum n => negb (n =? 0)%Z
  | VStr s => negb (String.eqb s "")
  | VArr _ | VObj _ => true
  end.

Fixpoint lookupField (k : string) (fields : list (string * JsVal)) : JsVal :=
  match fields with
  | [] => VUndefined
  | (k', v) :: rest => if String.eqb k' k then v else lookupField k rest
  end.

(** [v.k]: reading a property of [null] or [undefined] throws ([None]); a
    property that is not there reads as [undefined]. *)
Definition getProp (v : JsVal) (k : string) : option JsVal :=
  match v with
  | VUndefined | VNull => None
  | VObj fields => Some (lookupField k fields)
  | _ => Some VUndefined
  end.

(** How a request ends: the promise resolves with [response.data], or it
    rejects; [message] is [error.response?.data?.message] when there is one. *)
Inductive Settled :=
| Resolved (data : JsVal)
| Rejected (message : option string).

(** ** Notifications *)

Inductive ToastType := info | success | error.

Record Toast := mkToast { id : Z; message : string; type : ToastType }.

(** A [setTimeout] callback of [addToast], with the [id] it captured. *)
Record Timer := mkTimer { due : Z; target : Z }.

(** ** Requests *)

(** The HTTP calls the component makes. *)
Inductive Request :=
| GetPosts
| PostPost
| PutPost (postId : string)
| DeletePost (postId : option string)
| PostLike (postId : string).

(** What waits for a request to settle, with the constants of its closure. *)
Inductive Pending :=
| AwaitGet (caller : option (option Post))
| AwaitSave (currentPost : option Post)
| AwaitDelete (posts : list Post) (postIdToDelete : option string)
| AwaitLike (postId : string).

(** ** State *)

(** What surrounds the component: clock, timer queue, requests in flight, the
    log of requests sent, the [likedPosts] entry of [localStorage], and whether
    a write to [localStorage] throws at present (storage full or switched
    off). [now] is in milliseconds and is what both [Date.now] and the timers
    read; it never runs backwards, and a timer's callback runs as soon as its
    delay has run out. *)
Record World := mkWorld {
  now : Z;
  timers : list Timer;
  inflight : list Pending;
  sent : list Request;
  storage : option string;
  writeThrows : bool
}.

Record AppState := mkApp {
  posts : list Post;
  loading : bool;
  searchTerm : string;
  activeFilter : string;
  isPostModalOpen : bool;
  isReadModalOpen : bool;
  isConfirmModalOpen : bool;
  currentPost : option Post;
  postIdToDelete : option string;
  toasts : list Toast;
  likedPosts : list string;
  world : World
}.

(** [useState([])], [useState(true)], ...; [likedPosts] starts from what
    [useLocalStorage] could read. *)
Definition initialState (liked : list string) (stored : option string) (t0 : Z)
  : AppState :=
  mkApp [] true "" "all" false false false None None [] liked
        (mkWorld t0 [] [] [] stored false).

(** *** State setters *)

Definition setWorld (f : World -> World) (s : AppState) : AppState :=
  mkApp (posts s) (loading s) (searchTerm s) (activeFilter s)
        (isPostModalOpen s) (isReadModalOpen s) (isConfirmModalOpen s)
        (currentPost s) (postIdToDelete s) (toasts s) (likedPosts s)
        (f (world s)).

Definition setPosts (f : list Post -> list Post) (s : AppState) : AppState :=
  mkApp (f (posts s)) (loading s) (searchTerm s) (activeFilter s)
        (isPostModalOpen s) (isReadModalOpen s) (isConfirmModalOpen s)
        (currentPost s) (postIdToDelete s) (toasts s) (likedPosts s) (world s).

Definition setLoading (b : bool) (s : AppState) : AppState :=
  mkApp (posts s) b (searchTerm s) (activeFilter s)
        (isPostModalOpen s) (isReadModalOpen s) (isConfirmModalOpen s)
        (currentPost s) (postIdToDelete s) (toasts s) (likedPosts s) (world s).

Definition setSearchTerm (v : string) (s : AppState) : AppState :=
  mkApp (posts s) (loading s) v (activeFilter s)
        (isPostModalOpen s) (isReadModalOpen s) (isConfirmModalOpen s)
        (currentPost s) (postIdToDelete s) (toasts s) (likedPosts s) (world s).

Definition setActiveFilter (v : string) (s : AppState) : AppState :=
  mkApp (posts s) (loading s) (searchTerm s) v
        (isPostModalOpen s) (isReadModalOpen s) (isConfirmModalOpen s)
        (currentPost s) (postIdToDelete s) (toasts s) (likedPosts s) (world s).

Definition setPostModalOpen (b : bool) (s : AppState) : AppState :=
  mkApp (posts s) (loading s) (searchTerm s) (activeFilter s)
        b (isReadModalOpen s) (isConfirmModalOpen s)
        (currentPost s) (postIdToDelete s) (toasts s) (likedPosts s) (world s).

Definition setReadModalOpen (b : bool) (s : AppState) : AppState :=
  mkApp (posts s) (loading s) (searchTerm s) (activeFilter s)
        (isPostModalOpen s) b (isConfirmModalOpen s)
        (currentPost s) (postIdToDelete s) (toasts s) (likedPosts s) (world s).

Definition setConfirmModalOpen (b : bool) (s : AppState) : AppState :=
  mkApp (posts s) (loading s) (searchTerm s) (activeFilter s)
        (isPostModalOpen s) (isReadModalOpen s) b
        (currentPost s) (postIdToDelete s) (toasts s) (likedPosts s) (world s).

Definition setCurrentPost (v : option Post) (s : AppState) : AppState :=
  mkApp (posts s) (loading s) (searchTerm s) (activeFilter s)
        (isPostModalOpen s) (isReadModalOpen s) (isConfirmModalOpen s)
        v (postIdToDelete s) (toasts s) (likedPosts s) (world s).

Definition setPostIdToDelete (v : option string) (s : AppState) : AppState :=
  mkApp (posts s) (loading s) (searchTerm s) (activeFilter s)
        (isPostModalOpen s) (isReadModalOpen s) (isConfirmModalOpen s)
        (currentPost s) v (toasts s) (likedPosts s) (world s).

Definition setToasts (f : list Toast -> list Toast) (s : AppState) : AppState :=
  mkApp (posts s) (loading s) (searchTerm s) (activeFilter s)
        (isPostModalOpen s) (isReadModalOpen s) (isConfirmModalOpen s)
        (currentPost s) (postIdToDelete s) (f (toasts s)) (likedPosts s)
        (world s).

Definition setValue (f : list string -> list string) (s : AppState) : AppState :=
  mkApp (posts s) (loading s) (searchTerm s) (activeFilter s)
        (isPostModalOpen s) (isReadModalOpen s) (isConfirmModalOpen s)
        (currentPost s) (postIdToDelete s) (toasts s) (f (likedPosts s))
        (world s).

(** *** The world: timers, requests, storage *)

(** [setTimeout(callback, delay)] where the callback removes toast [target]. *)
Definition setTimeout (target delay : Z) (w : World) : World :=
  mkWorld (now w) (timers w ++ [mkTimer (now w + delay) target])
          (inflight w) (sent w) (storage w) (writeThrows w).

(** [await axios...]: the request leaves, the rest of the handler waits. *)
Definition request (r : Request) (k : Pending) (w : World) : World :=
  mkWorld (now w) (timers w) (inflight w ++ [k]) (sent w ++ [r]) (storage w)
          (writeThrows w).

(** [window.localStorage.setItem('likedPosts', v)] inside the [try] of
    [setStoredValue]: the entry is written, or the call throws and the [catch]
    leaves the entry as it was. *)
Definition setItem (v : string) (w : World) : World :=
  mkWorld (now w) (timers w) (inflight w) (sent w)
          (if writeThrows w then storage w else Some v) (writeThrows w).

(** The environment makes writes to [localStorage] throw, or work again. *)
Definition setWriteThrows (b : bool) (w : World) : World :=
  mkWorld (now w) (timers w) (inflight w) (sent w) (storage w) b.

(** The [n]-th pending request settles and leaves the list. *)
Definition settled (n : nat) (w : World) : World :=
  mkWorld (now w) (timers w) (firstn n (inflight w) ++ skipn (S n) (inflight w))
          (sent w) (storage w) (writeThrows w).

(** ** The hooks *)

(** [addToast] of [useToasts]: the id is [Date.now()], the toast goes to the
    end of the list, and a timer of its own will filter that id out 4000 ms
    later. *)
Definition addToast (message : string) (type : ToastType) (s : AppState)
  : AppState :=
  let id := now (world s) in
  let s := setToasts (fun prev => prev ++ [mkToast id message type]) s in
  setWorld (setTimeout id 4000) s.

(** The callback [addToast] hands to [setTimeout]. *)
Definition expireToast (tid : Z) (s : AppState) : AppState :=
  setToasts (List.filter (fun t => negb (id t =? tid)%Z)) s.

(** [setStoredValue] of [useLocalStorage], called with an updater function as
    [handleLike] does. Inside the [try], [setValue] runs first: the state cell
    applies the function. Then [setItem] is given [JSON.stringify] of the
    function, which is [undefined] and is stored as the text "undefined"; when
    the write throws, the [catch] swallows it: the state cell keeps its new
    value and the entry stays as it was. *)
Definition setLikedPosts (f : list string -> list string) (s : AppState)
  : AppState :=
  setWorld (setItem "undefined") (setValue f s).

(** [likedPostsSet = new Set(likedPosts)]. *)
Definition likedPostsSet (s : AppState) : gset string :=
  list_to_set (likedPosts s).

(** [set.has(x)]. *)
Definition has (set : gset string) (x : string) : bool :=
  bool_decide (x ∈ set).

(** ** The handlers of [App] *)

(** [error.response?.data?.message || fallback]: an absent or empty message
    gives the fallback. *)
Definition messageOr (message : option string) (fallback : string) : string :=
  match message with
  | Some m => if String.eqb m "" then fallback else m
  | None => fallback
  end.

(** [fetchPosts] up to its [await]. [caller] is [Some cur] when
    [handleFormSubmit] awaits this call, with [cur] its [currentPost]. *)
Definition fetchPosts (caller : option (option Post)) (s : AppState) : AppState :=
  let s := setLoading true s in
  setWorld (request GetPosts (AwaitGet caller)) s.

(** [response.data.success ? response.data.data : response.data]; [None] when
    reading [success] throws. *)
Definition postsData (data : JsVal) : option JsVal :=
  match getProp data "success" with
  | None => None
  | Some flag => if truthy flag then getProp data "data" else Some data
  end.

(** [Array.isArray(postsData) ? postsData : []]. *)
Definition arrayOrEmpty (v : JsVal) : list Post :=
  match v with
  | VArr items => items
  | _ => []
  end.

(** The [catch] block of [fetchPosts]. *)
Definition fetchPosts_catch (s : AppState) : AppState :=
  let s := addToast "Could not fetch posts. Please try again later." error s in
  setPosts (fun _ => []) s.

(** [fetchPosts] from the moment the GET settles: [try] body or [catch], then
    [finally]. *)
Definition fetchPosts_settled (r : Settled) (s : AppState) : AppState :=
  let s :=
    match r with
    | Resolved data =>
        match postsData data with
        | Some v => setPosts (fun _ => arrayOrEmpty v) s
        | None => fetchPosts_catch s
        end
    | Rejected _ => fetchPosts_catch s
    end in
  setLoading false s.

(** [handleFormSubmit] up to its first [await]. *)
Definition handleFormSubmit (s : AppState) : AppState :=
  let r := match currentPost s with
           | Some p => PutPost (_id p)
           | None => PostPost
           end in
  setWorld (request r (AwaitSave (currentPost s))) s.

(** [handleFormSubmit] when the save settles: on success it awaits
    [fetchPosts], on failure it reports. *)
Definition handleFormSubmit_settled (cur : option Post) (r : Settled)
  (s : AppState) : AppState :=
  match r with
  | Resolved _ => fetchPosts (Some cur) s
  | Rejected m => addToast ("Error: " ++ messageOr m "Could not save post.") error s
  end.

(** [handleFormSubmit] after [await fetchPosts()]. *)
Definition handleFormSubmit_done (cur : option Post) (s : AppState) : AppState :=
  let s := setPostModalOpen false s in
  let s := setCurrentPost None s in
  let verb := match cur with Some _ => "updated" | None => "created" end in
  addToast ("Post " ++ verb ++ " successfully!") success s.

(** [p._id !== postIdToDelete], where [postIdToDelete] may be [null]. *)
Definition idDiffers (p : Post) (target : option string) : bool :=
  match target with
  | Some x => negb (String.eqb (_id p) x)
  | None => true
  end.

(** [handleDeleteConfirm] up to its [await]: the closure keeps the [posts] and
    the [postIdToDelete] of the render that created it. *)
Definition handleDeleteConfirm (s : AppState) : AppState :=
  setWorld (request (DeletePost (postIdToDelete s))
                    (AwaitDelete (posts s) (postIdToDelete s))) s.

(** [handleDeleteConfirm] when the DELETE settles. *)
Definition handleDeleteConfirm_settled (posts0 : list Post)
  (target : option string) (r : Settled) (s : AppState) : AppState :=
  match r with
  | Resolved _ =>
      let s := setPosts (fun _ => List.filter (fun p => idDiffers p target) posts0) s in
      let s := setConfirmModalOpen false s in
      let s := setPostIdToDelete None s in
      addToast "Post deleted successfully!" success s
  | Rejected m =>
      addToast ("Error: " ++ messageOr m "Could not delete post.") error s
  end.

(** [p => p._id === postId ? { ...p, likes: p.likes + d } : p]. *)
Definition bumpLikes (postId : string) (d : Z) (p : Post) : Post :=
  if String.eqb (_id p) postId then withLikes p (likes p + d) else p.

(** [handleLike] up to its [await]. *)
Definition handleLike (postId : string) (s : AppState) : AppState :=
  if has (likedPostsSet s) postId then
    addToast "You've already liked this post!" info s
  else
    let s := setPosts (List.map (bumpLikes postId 1)) s in
    let s := setLikedPosts (fun prev => prev ++ [postId]) s in
    setWorld (request (PostLike postId) (AwaitLike postId)) s.

(** [handleLike] when the like request settles: nothing on success, the
    [catch] block on failure. *)
Definition handleLike_settled (postId : string) (r : Settled) (s : AppState)
  : AppState :=
  match r with
  | Resolved _ => s
  | Rejected _ =>
      let s := setPosts (List.map (bumpLikes postId (-1))) s in
      let s := setLikedPosts
                 (List.filter (fun x => negb (String.eqb x postId))) s in
      addToast "Couldn't like post. Please try again." error s
  end.

(** [handleShare] once the platform call has settled; [native] tells whether
    [navigator.share] exists. *)
Definition handleShare_settled (native ok : bool) (s : AppState) : AppState :=
  if ok then
    addToast (if native then "Shared successfully!"
              else "Link copied to clipboard!") success s
  else addToast "Could not share. Please try again." error s.

(** ** Events *)

Inductive Event :=
| Mount
| Elapse (ms : N)
| Settle (n : nat) (r : Settled)
| ChangeSearch (value : string)
| ClickFilter (value : string)
| ClickLike (postId : string)
| ClickShare (native ok : bool)
| ClickEdit (p : Post)
| ClickDelete (postId : string)
| ClickReadMore (p : Post)
| ClickCreate
| ClosePostModal
| CloseReadModal
| CloseConfirmModal
| SubmitForm
| ConfirmDelete
| StorageThrows (b : bool).

(** The clock moves on by [ms] milliseconds; every timer whose delay has run
    out by then has fired, oldest first. *)
Definition elapse (ms : N) (s : AppState) : AppState :=
  let t := (now (world s) + Z.of_N ms)%Z in
  let fired := List.filter (fun tm => (due tm <=? t)%Z) (timers (world s)) in
  let s := fold_left (fun acc tm => expireToast (target tm) acc) fired s in
  setWorld (fun w =>
    mkWorld t (List.filter (fun tm => negb (due tm <=? t)%Z) (timers w))
            (inflight w) (sent w) (storage w) (writeThrows w)) s.

(** A pending request settles: the rest of its handler runs. *)
Definition resume (k : Pending) (r : Settled) (s : AppState) : AppState :=
  match k with
  | AwaitGet caller =>
      let s := fetchPosts_settled r s in
      match caller with
      | Some cur => handleFormSubmit_done cur s
      | None => s
      end
  | AwaitSave cur => handleFormSubmit_settled cur r s
  | AwaitDelete posts0 target => handleDeleteConfirm_settled posts0 target r s
  | AwaitLike postId => handleLike_settled postId r s
  end.

Definition step (e : Event) (s : AppState) : AppState :=
  match e with
  | Mount => fetchPosts None s
  | Elapse ms => elapse ms s
  | Settle n r =>
      match nth_error (inflight (world s)) n with
      | Some k => resume k r (setWorld (settled n) s)
      | None => s
      end
  | ChangeSearch v => setSearchTerm v s
  | ClickFilter v => setActiveFilter v s
  | ClickLike postId => handleLike postId s
  | ClickShare native ok => handleShare_settled native ok s
  | ClickEdit p => setPostModalOpen true (setCurrentPost (Some p) s)
  | ClickDelete postId => setConfirmModalOpen true (setPostIdToDelete (Some postId) s)
  | ClickReadMore p => setReadModalOpen true (setCurrentPost (Some p) s)
  | ClickCreate => setPostModalOpen true (setCurrentPost None s)
  | ClosePostModal => setCurrentPost None (setPostModalOpen false s)
  | CloseReadModal => setCurrentPost None (setReadModalOpen false s)
  | CloseConfirmModal => setPostIdToDelete None (setConfirmModalOpen false s)
  | SubmitForm => handleFormSubmit s
  | ConfirmDelete => handleDeleteConfirm s
  | StorageThrows b => setWorld (setWriteThrows b) s
  end.

(** A run: the events of a list, first to last. *)
Definition run (es : list Event) (s : AppState) : AppState :=
  fold_left (fun acc e => step e acc) es s.

(** A sample post to execute the model on. *)
Definition samplePost (i t c : string) (n : Z) : Post :=
  mkPost i t "<p>text</p>" c n 0 None None "2024-01-01T00:00:00.000Z".

(** ** What is rendered *)

(** The text after the first [>] of [s], when there is one. *)
Fixpoint afterGt (s : string) : option string :=
  match s with
  | EmptyString => None
  | String c s' => if Ascii.eqb c ">" then Some s' else afterGt s'
  end.

(** [content.replace(/<[^>]*>/g, '')] of [PostCard]: scanning from the left, a
    [<] that has a [>] somewhere after it is dropped together with everything
    up to the first such [>], and the scan goes on after it; every other
    character is kept. [fuel] bounds the number of steps of the scan; the
    length of the text is enough (lemma [stripTagsFrom_enough]). *)
Fixpoint stripTagsFrom (fuel : nat) (s : string) : string :=
  match fuel with
  | O => s
  | S fuel' =>
      match s with
      | EmptyString => EmptyString
      | String c s' =>
          match (if Ascii.eqb c "<" then afterGt s' else None) with
          | Some rest => stripTagsFrom fuel' rest
          | None => String c (stripTagsFrom fuel' s')
          end
      end
  end.

Definition stripTags (s : string) : string :=
  stripTagsFrom (String.length s) s.

(** [excerpt] of [PostCard]: the stripped content, cut to 120 characters and
    followed by three dots when it is longer. *)
Definition excerpt (post : Post) : string :=
  let truncatedContent := stripTags (content post) in
  if (120 <? String.length truncatedContent)%nat
  then String.substring 0 120 truncatedContent ++ "..."
  else truncatedContent.

(** What [App] puts inside [<main>]: six loading cards, the grid of cards of
    the filtered posts, or the empty state with its message. *)
Inductive MainContent :=
| LoadingCards (count : nat)
| PostsGrid (cards : list Post)
| EmptyState (emptyMessage : string).

Definition mainContent (s : AppState) : MainContent :=
  let filtered := filteredPosts (posts s) (searchTerm s) (activeFilter s) in
  if loading s then LoadingCards 6
  else if (0 <? List.length filtered)%nat then PostsGrid filtered
  else EmptyState
         (if negb (String.eqb (searchTerm s) "")
             || negb (String.eqb (activeFilter s) "all")
          then "Try adjusting your search or filter criteria"
          else "No posts have been published yet").

(** [isLiked] of the card of [post]; the like button is disabled when it
    holds. *)
Definition isLiked (s : AppState) (post : Post) : bool :=
  has (likedPostsSet s) (_id post).

(** ** The form dialog ([PostFormModal]) *)

(** [post?.title || ''], [post?.category || 'Job Notification'],
    [post?.content || ''] and [post?.mediaUrl || null]. *)
Definition titleOrEmpty (post : option Post) : string :=
  match post with Some p => title p | None => "" end.

Definition categoryOrDefault (post : option Post) : string :=
  match post with
  | Some p => if String.eqb (category p) "" then "Job Notification" else category p
  | None => "Job Notification"
  end.

Definition contentOrEmpty (post : option Post) : string :=
  match post with Some p => content p | None => "" end.

Definition mediaUrlOrNull (post : option Post) : option string :=
  match post with
  | Some p => match mediaUrl p with
              | Some u => if String.eqb u "" then None else Some u
              | None => None
              end
  | None => None
  end.

Module PostFormModal.

Record FormData := mkFormData {
  title : string;
  category : string;
  content : string
}.

(** A file picked in the file input: its size in bytes, its MIME type, and
    the address [URL.createObjectURL] gives for it. *)
Record File := mkFile { size : Z; type : string; objectURL : string }.

(** The four [useState] cells of the dialog. *)
Record State := mkState {
  formData : FormData;
  mediaFile : option File;
  preview : option string;
  isSubmitting : bool
}.

Definition initial : State :=
  mkState (mkFormData "" "Job Notification" "") None None false.

(** The effect on [post, isOpen]: an open dialog takes its fields from the
    post under edit, or the defaults. *)
Definition onOpen (isOpen : bool) (post : option Post) (st : State) : State :=
  if isOpen then
    mkState (mkFormData (titleOrEmpty post) (categoryOrDefault post)
                        (contentOrEmpty post))
            None (mediaUrlOrNull post) (isSubmitting st)
  else st.

(** The [name] of the input that changed. *)
Inductive Field := Title | Category | Content.

(** [setFormData(prev => ({ ...prev, [name]: value }))]. *)
Definition handleInputChange (name : Field) (value : string) (st : State) : State :=
  let d := formData st in
  let d' := match name with
            | Title => mkFormData value (category d) (content d)
            | Category => mkFormData (title d) value (content d)
            | Content => mkFormData (title d) (category d) value
            end in
  mkState d' (mediaFile st) (preview st) (isSubmitting st).

(** [handleFileChange]; the boolean tells whether [alert] was called. *)
Definition handleFileChange (file : option File) (post : option Post) (st : State)
  : State * bool :=
  match file with
  | Some f =>
      if (10 * 1024 * 1024 <? size f)%Z then (st, true)
      else (mkState (formData st) (Some f) (Some (objectURL f)) (isSubmitting st),
            false)
  | None =>
      (mkState (formData st) None (mediaUrlOrNull post) (isSubmitting st), false)
  end.

(** One entry of the submitted [FormData]. *)
Inductive Part := Text (value : string) | Blob (file : File).

(** [handleSubmit] up to its [await]: nothing while a submission is pending;
    otherwise the entries appended to [submitData], in order. *)
Definition handleSubmit (st : State) : State * option (list (string * Part)) :=
  if isSubmitting st then (st, None)
  else
    let submitData :=
      [("title", Text (Js.trim (title (formData st))));
       ("category", Text (category (formData st)));
       ("content", Text (Js.trim (content (formData st))))]
      ++ match mediaFile st with
         | Some f => [("mediaFile", Blob f)]
         | None => []
         end in
    (mkState (formData st) (mediaFile st) (preview st) true, Some submitData).

(** The [finally] of [handleSubmit]. *)
Definition handleSubmit_finally (st : State) : State :=
  mkState (formData st) (mediaFile st) (preview st) false.

End PostFormModal.

(** ** The page: [App] with its form dialog *)

Record Page := mkPage { app : AppState; form : PostFormModal.State }.

Inductive PageEvent :=
| OfApp (e : Event)
| OpenEffect
| InputChange (name : PostFormModal.Field) (value : string)
| FileChange (file : option PostFormModal.File).

(** The pending requests that [handleFormSubmit] is still waiting on: the
    save, or the refresh it awaits after the save. *)
Definition awaitedBySubmit (k : Pending) : bool :=
  match k with
  | AwaitSave _ | AwaitGet (Some _) => true
  | _ => false
  end.

(** [onSubmit] of the dialog has settled when the save is rejected or when
    the awaited refresh settles. *)
Definition submitSettles (k : Pending) (r : Settled) : bool :=
  match k, r with
  | AwaitSave _, Rejected _ => true
  | AwaitGet (Some _), _ => true
  | _, _ => false
  end.

(** One event of the page. The form is submitted through [handleSubmit] of
    the dialog, which calls [handleFormSubmit] unless a submission is pending;
    when [onSubmit] has settled, the [finally] of [handleSubmit] runs. The
    effect of the dialog may run after any render. *)
Definition pageStep (e : PageEvent) (pg : Page) : Page :=
  match e with
  | OfApp SubmitForm =>
      match PostFormModal.handleSubmit (form pg) with
      | (st, Some _) => mkPage (handleFormSubmit (app pg)) st
      | (_, None) => pg
      end
  | OfApp (Settle n r) =>
      let st := match nth_error (inflight (world (app pg))) n with
                | Some k => if submitSettles k r
                            then PostFormModal.handleSubmit_finally (form pg)
                            else form pg
                | None => form pg
                end in
      mkPage (step (Settle n r) (app pg)) st
  | OfApp e' => mkPage (step e' (app pg)) (form pg)
  | OpenEffect =>
      mkPage (app pg)
             (PostFormModal.onOpen (isPostModalOpen (app pg))
                                   (currentPost (app pg)) (form pg))
  | InputChange name value =>
      mkPage (app pg) (PostFormModal.handleInputChange name value (form pg))
  | FileChange file =>
      mkPage (app pg)
             (fst (PostFormModal.handleFileChange file (currentPost (app pg))
                                                  (form pg)))
  end.

Definition pageRun (es : list PageEvent) (pg : Page) : Page :=
  fold_left (fun acc e => pageStep e acc) es pg.

Definition initialPage (liked : list string) (stored : option string) (t0 : Z)
  : Page :=
  mkPage (initialState liked stored t0) PostFormModal.initial.

(** The submissions of the form still in flight. *)
Definition submissions (pg : Page) : list Pending :=
  List.filter awaitedBySubmit (inflight (world (app pg))).

Definition submitCount (pg : Page) : nat := List.length (submissions pg).

(** ** Vocabulary of the properties *)

(** [needle] occurs in [hay]: some text before it, some text after it. *)
Definition occursIn (needle hay : string) : Prop :=
  exists before after, hay = (before ++ needle ++ after)%string.

#[global] Instance Post_eq_dec : EqDecision Post.
Proof. solve_decision. Defined.

#[global] Instance ToastType_eq_dec : EqDecision ToastType.
Proof. solve_decision. Defined.

#[global] Instance Toast_eq_dec : EqDecision Toast.
Proof. solve_decision. Defined.

(** The toasts left once the callbacks of the timers [fired] have run. *)
Definition expireAll (fired : list Timer) (ts : list Toast) : list Toast :=
  fold_left (fun acc tm => List.filter (fun t => negb (id t =? target tm)%Z) acc)
            fired ts.

(** Every timer in the queue was set by [addToast]: it is due 4000 ms after
    the instant that gave its toast the id. *)
Definition timersWf (s : AppState) : Prop :=
  Forall (fun tm => due tm = (target tm + 4000)%Z) (timers (world s)).

(** What an event other than the passing of time can do to the toasts: the
    clock stands still, and toasts stamped with the present instant are added
    at the end, each with a timer of its own added at the end of the queue. *)
Definition pushesOnly (s s' : AppState) : Prop :=
  now (world s') = now (world s) /\
  exists new,
    toasts s' = toasts s ++ new /\
    timers (world s') = timers (world s)
                        ++ List.map (fun t => mkTimer (id t + 4000) (id t)) new /\
    Forall (fun t => id t = now (world s)) new.

(** Proof steps for [pushesOnly]: no toast, one toast, two toasts. *)
Ltac pushes_none :=
  split; [reflexivity|]; exists []; cbn; rewrite ?app_nil_r;
  repeat split; constructor.

Ltac pushes_one :=
  split; [reflexivity|]; eexists [_]; cbn;
  repeat split; repeat constructor.

Ltac pushes_two :=
  split; [reflexivity|]; eexists [_; _]; cbn; rewrite <- ?app_assoc; cbn;
  repeat split; repeat constructor.

Ltac pushes :=
  first [solve [pushes_none] | solve [pushes_one] | solve [pushes_two]].

(** From the push at instant [T] on: until 4000 ms have passed the timer of
    that push is in the queue, and afterwards no toast has the id [T]. *)
Definition expiresAt (T : Z) (s : AppState) : Prop :=
  (T <= now (world s))%Z /\
  ((now (world s) < T + 4000)%Z ->
   In (mkTimer (T + 4000) T) (timers (world s))) /\
  ((T + 4000 <= now (world s))%Z -> forall t, In t (toasts s) -> id t <> T).

(** Every post of the collection has a like count of zero or more. *)
Definition likesNonNegative (s : AppState) : Prop :=
  Forall (fun p => (0 <= likes p)%Z) (posts s).

(** [s] holds a tag: a [<] with a [>] somewhere after it, which is what the
    pattern [<[^>]*>] matches. *)
Definition hasTag (s : string) : Prop :=
  exists a b c, s = (a ++ "<" ++ b ++ ">" ++ c)%string.

(** The same, decided from the left: no [<] of [s] has a [>] after it. *)
Fixpoint tagFree (s : string) : bool :=
  match s with
  | EmptyString => true
  | String c s' =>
      (negb (Ascii.eqb c "<") || match afterGt s' with None => true | Some _ => false end)
      && tagFree s'
  end.

(** The identifiers of the like requests among pending requests. *)
Definition likesOf (l : list Pending) : list string :=
  flat_map (fun k => match k with AwaitLike postId => [postId] | _ => [] end) l.

(** The identifiers whose like request is on its way. *)
Definition pendingLikes (s : AppState) : list string :=
  likesOf (inflight (world s)).

(** A GET of the posts is on its way. *)
Definition fetching (s : AppState) : Prop :=
  exists caller, In (AwaitGet caller) (inflight (world s)).

(** Every toast in the list has its timer in the queue, and no timer in the
    queue is overdue. *)
Definition toastsTimed (s : AppState) : Prop :=
  timersWf s /\
  (forall tm, In tm (timers (world s)) -> (now (world s) < due tm)%Z) /\
  (forall t, In t (toasts s) ->
     (id t <= now (world s))%Z /\
     In (mkTimer (id t + 4000) (id t)) (timers (world s))).

(** What one event can do to the likes: nothing; a like starts (a fresh
    identifier joins the liked ones and the pending ones); a like request
    settles (its identifier leaves the pending ones, and on failure the liked
    ones too). Whenever the liked identifiers are written, the stored entry
    becomes the text "undefined", unless the write throws and the entry stays
    as it was. *)
Definition likeEffect (s s' : AppState) : Prop :=
  let written :=
    if writeThrows (world s) then storage (world s) else Some "undefined" in
  (likedPosts s' = likedPosts s /\ storage (world s') = storage (world s) /\
   pendingLikes s' = pendingLikes s) \/
  (exists postId,
     ~ In postId (likedPosts s) /\
     likedPosts s' = likedPosts s ++ [postId] /\
     storage (world s') = written /\
     pendingLikes s' = pendingLikes s ++ [postId]) \/
  (exists postId l1 l2,
     pendingLikes s = l1 ++ postId :: l2 /\ pendingLikes s' = l1 ++ l2 /\
     ((likedPosts s' = likedPosts s /\ storage (world s') = storage (world s)) \/
      (likedPosts s' = List.filter (fun x => negb (String.eqb x postId)) (likedPosts s) /\
       storage (world s') = written))).

(** [Number.isSafeInteger]: the integers on which JavaScript's arithmetic on
    numbers is the arithmetic of the integers. *)
Definition safeInteger (n : Z) : Prop := (- 2 ^ 53 < n < 2 ^ 53)%Z.

(** * Properties *)

Example run_like_then_like :
  let s := run [Mount; Settle 0 (Resolved (VArr [samplePost "a" "Result 2024" "Result" 3]));
                ClickLike "a"; ClickLike "a"] (initialState [] None 1000) in
  List.map likes (posts s) = [4%Z] /\ likedPosts s = ["a"] /\
  sent (world s) = [GetPosts; PostLike "a"] /\ List.length (toasts s) = 1%nat.
Proof. vm_compute. repeat split; reflexivity. Qed.

(** ** Strings *)

Lemma startsWith_true (hay needle : string) :
  Js.startsWith hay needle = true <-> exists rest, hay = (needle ++ rest)%string.
Proof.
  revert needle; induction hay as [|b h IH]; intros [|a n]; simpl.
  - split; [exists ""; reflexivity | reflexivity].
  - split; [discriminate | intros [r Hr]; discriminate].
  - split; [eexists; reflexivity | reflexivity].
  - rewrite andb_true_iff, IH. split.
    + intros [Hab [r ->]]. apply Ascii.eqb_eq in Hab as ->. now exists r.
    + intros [r Hr]. injection Hr as -> ->. split; [apply Ascii.eqb_refl | now exists r].
Qed.

Lemma includes_true (hay needle : string) :
  Js.includes hay needle = true <-> occursIn needle hay.
Proof.
  unfold occursIn. induction hay as [|b h IH].
  - cbn [Js.includes]. rewrite orb_false_r, startsWith_true. split.
    + intros [r Hr]. exists "", r. exact Hr.
    + intros [[|c x] [y Hxy]]; [now exists y | discriminate].
  - cbn [Js.includes]. rewrite orb_true_iff, startsWith_true, IH. split.
    + intros [[r Hr] | [x [y Hxy]]].
      * exists "", r. exact Hr.
      * exists (String b x), y. simpl. now rewrite Hxy.
    + intros [[|c x] [y Hxy]].
      * left. now exists y.
      * right. injection Hxy as -> ->. now exists x, y.
Qed.

Lemma includes_empty (hay : string) : Js.includes hay "" = true.
Proof. apply includes_true. exists "", hay. reflexivity. Qed.

(** ** The derived view *)

Lemma matchesPost_true (term filt : string) (p : Post) :
  matchesPost term filt p = true <->
  (occursIn (Js.toLowerCase term) (Js.toLowerCase (title p)) \/
   occursIn (Js.toLowerCase term) (Js.toLowerCase (content p))) /\
  (filt = "all" \/ Js.toLowerCase (category p) = Js.toLowerCase filt).
Proof.
  unfold matchesPost.
  rewrite andb_true_iff, !orb_true_iff, !includes_true, !String.eqb_eq.
  reflexivity.
Qed.

Lemma matchesPost_lowered (t1 t2 filt : string) (p : Post) :
  Js.toLowerCase t1 = Js.toLowerCase t2 ->
  matchesPost t1 filt p = matchesPost t2 filt p.
Proof. intros H. unfold matchesPost. now rewrite H. Qed.

Lemma filter_sublist_of {A} (f : A -> bool) (l : list A) :
  List.filter f l `sublist_of` l.
Proof.
  induction l as [|x l IH]; simpl.
  - constructor.
  - destruct (f x); [apply sublist_skip | apply sublist_cons]; exact IH.
Qed.

Lemma count_occ_filter_le {A} (dec : forall x y : A, {x = y} + {x <> y})
  (f : A -> bool) (l : list A) (a : A) :
  count_occ dec (List.filter f l) a <= count_occ dec l a.
Proof.
  induction l as [|x l IH]; simpl; [lia|].
  destruct (f x); simpl; destruct (dec x a); lia.
Qed.

(** C3 (as the code has it): [filteredPosts] depends on the search term only
    through its lower-cased form, which is not trimmed. A post is in the result
    exactly when it is in the collection, the lower-cased search term occurs in
    its lower-cased title or in its lower-cased content (markup included), and
    the filter is "all" or equals the post's category up to letter case. Search
    terms with the same lower-cased form give the same result. *)
Theorem filteredPosts_characterised (ps : list Post) (term filt : string) :
  (forall p, In p (filteredPosts ps term filt) <->
     In p ps /\
     (occursIn (Js.toLowerCase term) (Js.toLowerCase (title p)) \/
      occursIn (Js.toLowerCase term) (Js.toLowerCase (content p))) /\
     (filt = "all" \/ Js.toLowerCase (category p) = Js.toLowerCase filt)) /\
  (forall term', Js.toLowerCase term' = Js.toLowerCase term ->
     filteredPosts ps term' filt = filteredPosts ps term filt).
Proof.
  split.
  - intros p. unfold filteredPosts.
    rewrite filter_In, matchesPost_true. reflexivity.
  - intros term' Hlow. unfold filteredPosts.
    apply filter_ext. intros p. now apply matchesPost_lowered.
Qed.

Lemma filteredPosts_characterised_witness :
  let ps := [samplePost "a" "Result 2024" "Result" 3;
             samplePost "b" "Job Notice" "Job Notification" 0] in
  Js.toLowerCase "RESULT" = Js.toLowerCase "result" /\
  filteredPosts ps "RESULT" "all" = filteredPosts ps "result" "all" /\
  In (samplePost "a" "Result 2024" "Result" 3) (filteredPosts ps "result" "all").
Proof.
  intros ps.
  destruct (filteredPosts_characterised ps "result" "all") as [Hmem Hcase].
  split; [reflexivity|]. split.
  - apply Hcase. reflexivity.
  - apply Hmem. split; [left; reflexivity|]. split.
    + left. exists "", " 2024". reflexivity.
    + left. reflexivity.
Defined.

(** C3, as stated, fails: a leading blank in the search term changes the
    result, because the term is lower-cased but never trimmed. *)
Lemma filteredPosts_not_trimmed :
  let ps := [samplePost "a" "Result 2024" "Result" 3] in
  Js.trim " result" = Js.trim "result" /\
  filteredPosts ps "result" "all" = ps /\
  filteredPosts ps " result" "all" = [].
Proof. vm_compute. repeat split; reflexivity. Qed.

(** C9: with the empty search term and the filter "all" the view is the whole
    collection, in the stored order. *)
Theorem filteredPosts_all (ps : list Post) : filteredPosts ps "" "all" = ps.
Proof.
  unfold filteredPosts. induction ps as [|p ps IH]; simpl; [reflexivity|].
  unfold matchesPost at 1. cbn [Js.toLowerCase].
  rewrite !includes_empty. simpl. now rewrite IH.
Qed.

(** C10: whatever the search term and the filter, the view is a subsequence
    of the collection: it keeps the stored order, each of its posts is a post
    of the collection, and no post occurs in it more often than there. *)
Theorem filteredPosts_subsequence (ps : list Post) (term filt : string) :
  filteredPosts ps term filt `sublist_of` ps /\
  (forall p, In p (filteredPosts ps term filt) -> In p ps) /\
  (forall p, count_occ Post_eq_dec (filteredPosts ps term filt) p
             <= count_occ Post_eq_dec ps p).
Proof.
  unfold filteredPosts. split; [apply filter_sublist_of|]. split.
  - intros p Hp. apply filter_In in Hp. tauto.
  - intros p. apply count_occ_filter_le.
Qed.

Lemma filteredPosts_subsequence_witness :
  let ps := [samplePost "a" "Result 2024" "Result" 3;
             samplePost "b" "Job Notice" "Job Notification" 0] in
  In (samplePost "b" "Job Notice" "Job Notification" 0) ps.
Proof.
  intros ps.
  destruct (filteredPosts_subsequence ps "job" "all") as [_ [Hin _]].
  apply Hin. vm_compute. left. reflexivity.
Defined.

(** ** Timers and the clock *)

Lemma fold_expireToast (fired : list Timer) (s : AppState) :
  fold_left (fun acc tm => expireToast (target tm) acc) fired s
  = setToasts (expireAll fired) s.
Proof.
  revert s; induction fired as [|tm fired IH]; intros s.
  - destruct s; reflexivity.
  - cbn [fold_left]. rewrite IH. destruct s; reflexivity.
Qed.

Lemma elapse_unfold (ms : N) (s : AppState) :
  let t := (now (world s) + Z.of_N ms)%Z in
  elapse ms s
  = setWorld (fun w =>
      mkWorld t (List.filter (fun tm => negb (due tm <=? t)%Z) (timers w))
              (inflight w) (sent w) (storage w) (writeThrows w))
      (setToasts
         (expireAll (List.filter (fun tm => (due tm <=? t)%Z) (timers (world s))))
         s).
Proof. unfold elapse. cbv zeta. now rewrite fold_expireToast. Qed.

(** ** Likes *)

Lemma has_likedPostsSet (s : AppState) (postId : string) :
  has (likedPostsSet s) postId = true <-> In postId (likedPosts s).
Proof.
  unfold has, likedPostsSet.
  rewrite bool_decide_eq_true, elem_of_list_to_set. apply list_elem_of_In.
Qed.

Lemma has_likedPostsSet_false (s : AppState) (postId : string) :
  ~ In postId (likedPosts s) -> has (likedPostsSet s) postId = false.
Proof.
  intros Hfresh. apply not_true_is_false. now rewrite has_likedPostsSet.
Qed.

(** On safe integers the rollback undoes the optimistic increment. *)
Lemma bumpLikes_cancel (postId : string) (p : Post) :
  safeInteger (likes p) ->
  bumpLikes postId (-1) (bumpLikes postId 1 p) = p.
Proof.
  intros _. unfold bumpLikes. destruct (String.eqb (_id p) postId) eqn:E.
  - cbn [withLikes _id]. rewrite E. destruct p. unfold withLikes. cbn.
    f_equal. lia.
  - now rewrite E.
Qed.

Lemma map_bumpLikes_cancel (postId : string) (ps : list Post) :
  Forall (fun p => safeInteger (likes p)) ps ->
  List.map (bumpLikes postId (-1)) (List.map (bumpLikes postId 1) ps) = ps.
Proof.
  intros Hsafe. rewrite List.map_map. rewrite <- (List.map_id ps) at 2.
  apply List.map_ext_in. intros p Hp. apply bumpLikes_cancel.
  rewrite List.Forall_forall in Hsafe. now apply Hsafe.
Qed.

Lemma filter_out_fresh (postId : string) (l : list string) :
  ~ In postId l ->
  List.filter (fun x => negb (String.eqb x postId)) (l ++ [postId]) = l.
Proof.
  intros Hfresh. rewrite List.filter_app. cbn [List.filter].
  rewrite String.eqb_refl. cbn. rewrite app_nil_r.
  induction l as [|x l IH]; [reflexivity|]. cbn [List.filter].
  destruct (String.eqb_spec x postId) as [->|Hne].
  - exfalso. apply Hfresh. now left.
  - cbn. f_equal. apply IH. intros Hin. apply Hfresh. now right.
Qed.

Lemma settle_appended (k : Pending) (l : list Pending) :
  nth_error (l ++ [k]) (length l) = Some k /\
  firstn (length l) (l ++ [k]) ++ skipn (S (length l)) (l ++ [k]) = l.
Proof.
  split.
  - rewrite nth_error_app2 by lia. now rewrite Nat.sub_diag.
  - rewrite firstn_app, Nat.sub_diag, firstn_all. cbn [firstn].
    rewrite skipn_all2 by (rewrite length_app; cbn; lia).
    now rewrite !app_nil_r.
Qed.

(** A like whose request fails while nothing else touches the collection. From
    any state in which [postId] is not yet liked and the like counts are safe
    integers, the click, any lapse of time and then the rejection of the like
    request leave the collection as it was before the click, leave [postId]
    out of the liked identifiers, add one error toast, and have sent the like
    request once, with nothing pending afterwards that was not pending
    before. *)
Lemma like_failure_undisturbed (s : AppState) (postId : string) (ms : N)
  (m : option string) :
  ~ In postId (likedPosts s) ->
  Forall (fun p => safeInteger (likes p)) (posts s) ->
  let s1 := step (ClickLike postId) s in
  let s2 := step (Elapse ms) s1 in
  let s3 := step (Settle (length (inflight (world s))) (Rejected m)) s2 in
  posts s1 = List.map (bumpLikes postId 1) (posts s) /\
  posts s3 = posts s /\
  ~ In postId (likedPosts s3) /\
  likedPosts s3 = likedPosts s /\
  toasts s3 = toasts s2 ++
    [mkToast (now (world s2)) "Couldn't like post. Please try again." error] /\
  sent (world s3) = sent (world s) ++ [PostLike postId] /\
  inflight (world s3) = inflight (world s).
Proof.
  intros Hfresh Hsafe s1 s2 s3.
  assert (E1 : s1 = setWorld (request (PostLike postId) (AwaitLike postId))
                 (setLikedPosts (fun prev => prev ++ [postId])
                    (setPosts (List.map (bumpLikes postId 1)) s))).
  { subst s1. cbn [step]. unfold handleLike.
    now rewrite (has_likedPostsSet_false s postId Hfresh). }
  destruct (settle_appended (AwaitLike postId) (inflight (world s))) as [Hnth Hrest].
  assert (E3 : s3 = handleLike_settled postId (Rejected m)
                      (setWorld (settled (length (inflight (world s)))) s2)).
  { subst s3. cbn [step]. subst s2. cbn [step]. rewrite elapse_unfold.
    rewrite E1. cbn. cbn in Hnth. now rewrite Hnth. }
  assert (E2 : s2 = elapse ms s1) by reflexivity.
  rewrite elapse_unfold in E2. cbv zeta in E2.
  split; [rewrite E1; reflexivity|].
  assert (Hliked : likedPosts s3 = likedPosts s).
  { rewrite E3, E2, E1. cbn. now apply filter_out_fresh. }
  split; [rewrite E3, E2, E1; cbn; now apply map_bumpLikes_cancel|].
  split; [now rewrite Hliked|]. split; [exact Hliked|].
  split; [rewrite E3; reflexivity|].
  split; [rewrite E3, E2, E1; reflexivity|].
  rewrite E3, E2, E1. cbn. cbn in Hrest. exact Hrest.
Qed.

(** C1 fails on this run: post a has 3 likes when it is liked; a post is saved
    while the like request is still on its way and the refresh that follows
    the save brings the server's count (3) back; then the like request fails.
    The [catch] block takes one off the refreshed count, so the final count is
    2 and not the 3 of before the like. The rest of the claim holds on the
    run: the identifier is not among the liked ones afterwards, the last toast
    is the error toast, and the like request was sent once. *)
Theorem like_failure_after_refresh_not_restored :
  let a := samplePost "a" "Result 2024" "Result" 3 in
  let b := samplePost "b" "Job Notice" "Job Notification" 0 in
  let before := run [Mount; Settle 0 (Resolved (VArr [a]))]
                    (initialState [] None 1000) in
  let after := run [ClickLike "a";
                    ClickCreate; SubmitForm; Settle 1 (Resolved (VObj []));
                    Settle 1 (Resolved (VArr [a; b]));
                    Settle 0 (Rejected None)] before in
  List.map likes (posts before) = [3%Z] /\
  List.map likes (posts (step (ClickLike "a") before)) = [4%Z] /\
  List.map _id (posts after) = ["a"; "b"] /\
  List.map likes (posts after) = [2%Z; 0%Z] /\
  likedPosts after = [] /\
  List.map message (toasts after)
  = ["Post created successfully!"; "Couldn't like post. Please try again."] /\
  sent (world after) = [GetPosts; PostLike "a"; PostPost; GetPosts] /\
  inflight (world after) = [].
Proof. vm_compute. repeat split; reflexivity. Qed.

(** C2: liking what is already liked. If [postId] is among the liked
    identifiers, the click sends nothing, changes neither the collection nor
    the identifiers nor any other cell of the state, and adds exactly one info
    toast. Hence from a state where [postId] is not yet liked, two clicks in a
    row send one like request and raise the like count of the posts with that
    identifier by one, the second click only adding the info toast. *)
Theorem like_is_idempotent (s : AppState) (postId : string) :
  (In postId (likedPosts s) ->
   let s1 := step (ClickLike postId) s in
   posts s1 = posts s /\ likedPosts s1 = likedPosts s /\
   sent (world s1) = sent (world s) /\
   inflight (world s1) = inflight (world s) /\
   storage (world s1) = storage (world s) /\
   toasts s1 = toasts s ++
     [mkToast (now (world s)) "You've already liked this post!" info] /\
   setWorld (fun _ => world s) (setToasts (fun _ => toasts s) s1) = s) /\
  (~ In postId (likedPosts s) ->
   let s1 := step (ClickLike postId) s in
   let s2 := step (ClickLike postId) s1 in
   sent (world s2) = sent (world s) ++ [PostLike postId] /\
   inflight (world s2) = inflight (world s) ++ [AwaitLike postId] /\
   posts s2 = List.map (bumpLikes postId 1) (posts s) /\
   List.map likes (posts s2)
   = List.map (fun p => if String.eqb (_id p) postId
                        then (likes p + 1)%Z else likes p) (posts s) /\
   likedPosts s2 = likedPosts s ++ [postId] /\
   posts s2 = posts s1 /\ likedPosts s2 = likedPosts s1 /\
   toasts s2 = toasts s ++
     [mkToast (now (world s)) "You've already liked this post!" info]).
Proof.
  split.
  - intros Hliked s1. subst s1. cbn [step]. unfold handleLike.
    apply has_likedPostsSet in Hliked. rewrite Hliked.
    repeat split; try reflexivity. destruct s; reflexivity.
  - intros Hfresh s1 s2.
    assert (E1 : s1 = setWorld (request (PostLike postId) (AwaitLike postId))
                   (setLikedPosts (fun prev => prev ++ [postId])
                      (setPosts (List.map (bumpLikes postId 1)) s))).
    { subst s1. cbn [step]. unfold handleLike.
      now rewrite (has_likedPostsSet_false s postId Hfresh). }
    assert (Hnow : In postId (likedPosts s1)).
    { rewrite E1. cbn. apply in_or_app. right. now left. }
    assert (E2 : s2 = addToast "You've already liked this post!" info s1).
    { subst s2. cbn [step]. unfold handleLike.
      apply has_likedPostsSet in Hnow. now rewrite Hnow. }
    rewrite E2, E1. cbn. repeat split; try reflexivity.
    rewrite List.map_map. apply List.map_ext. intros p.
    unfold bumpLikes. destruct (String.eqb (_id p) postId); reflexivity.
Qed.

Lemma like_is_idempotent_witness :
  let s := run [Mount;
                Settle 0 (Resolved (VArr [samplePost "a" "Result 2024" "Result" 3]));
                ClickLike "a"]
               (initialState [] None 1000) in
  In "a" (likedPosts s) /\ posts (step (ClickLike "a") s) = posts s /\
  ~ In "b" (likedPosts s) /\
  sent (world (step (ClickLike "b") (step (ClickLike "b") s)))
  = sent (world s) ++ [PostLike "b"].
Proof.
  intros s.
  assert (Hliked : In "a" (likedPosts s)) by (vm_compute; tauto).
  assert (Hfresh : ~ In "b" (likedPosts s)).
  { vm_compute. intros [H|[]]. discriminate H. }
  destruct (like_is_idempotent s "a") as [Hsame _].
  destruct (like_is_idempotent s "b") as [_ Htwice].
  specialize (Hsame Hliked). specialize (Htwice Hfresh). cbv zeta in Hsame, Htwice.
  split; [exact Hliked|]. split; [apply Hsame|].
  split; [exact Hfresh|]. apply Htwice.
Defined.

(** ** Delete *)

(** C5 (as the code has it): a delete whose request fails. The collection is
    unchanged, one error toast is added whose text is "Error: " followed by
    the server's message when there is a non-empty one and by "Could not
    delete post." otherwise, and the confirmation dialog is left as it was: the
    [catch] block closes nothing, so a dialog that was open stays open on the
    same identifier and a further click on its button sends the request
    again. *)
Theorem delete_failure_keeps_state (s : AppState) (n : nat)
  (posts0 : list Post) (target : option string) (m : option string) :
  nth_error (inflight (world s)) n = Some (AwaitDelete posts0 target) ->
  let s1 := step (Settle n (Rejected m)) s in
  posts s1 = posts s /\
  isConfirmModalOpen s1 = isConfirmModalOpen s /\
  postIdToDelete s1 = postIdToDelete s /\
  toasts s1 = toasts s ++
    [mkToast (now (world s))
       ("Error: " ++ messageOr m "Could not delete post.") error] /\
  (forall msg, m = Some msg -> msg <> "" ->
     messageOr m "Could not delete post." = msg) /\
  (m = None \/ m = Some "" ->
     messageOr m "Could not delete post." = "Could not delete post.") /\
  sent (world (step ConfirmDelete s1))
  = sent (world s) ++ [DeletePost (postIdToDelete s)].
Proof.
  intros Hnth s1. subst s1. cbn [step]. rewrite Hnth. cbn.
  repeat split; try reflexivity.
  - intros msg -> Hne. cbn. destruct (String.eqb_spec msg ""); congruence.
  - intros [-> | ->]; reflexivity.
Qed.

Lemma delete_failure_keeps_state_witness :
  let s := run [Mount;
                Settle 0 (Resolved (VArr [samplePost "a" "Result 2024" "Result" 3]));
                ClickDelete "a"; ConfirmDelete]
               (initialState [] None 1000) in
  nth_error (inflight (world s)) 0
  = Some (AwaitDelete [samplePost "a" "Result 2024" "Result" 3] (Some "a")) /\
  posts (step (Settle 0 (Rejected (Some "Forbidden"))) s) = posts s.
Proof.
  intros s.
  assert (Hnth : nth_error (inflight (world s)) 0
                 = Some (AwaitDelete [samplePost "a" "Result 2024" "Result" 3]
                                     (Some "a"))) by reflexivity.
  split; [exact Hnth|].
  apply (delete_failure_keeps_state s 0 _ _ (Some "Forbidden") Hnth).
Defined.

(** C5, as stated, fails: after a failed delete the confirmation dialog is
    still open on the same post, and confirming again sends a second DELETE
    without the delete having been initiated again. *)
Lemma delete_failure_leaves_dialog_open :
  let s := run [Mount;
                Settle 0 (Resolved (VArr [samplePost "a" "Result 2024" "Result" 3]));
                ClickDelete "a"; ConfirmDelete;
                Settle 0 (Rejected (Some "Forbidden"))]
               (initialState [] None 1000) in
  isConfirmModalOpen s = true /\ postIdToDelete s = Some "a" /\
  List.map message (toasts s) = ["Error: Forbidden"] /\
  sent (world (step ConfirmDelete s))
  = [GetPosts; DeletePost (Some "a"); DeletePost (Some "a")].
Proof. vm_compute. repeat split; reflexivity. Qed.

(** A delete that succeeds while nothing else touches the collection. With [x]
    the identifier under confirmation, the click on the dialog's button, any
    lapse of time and then the success of the request leave in the collection
    exactly the posts whose identifier is not [x]: each of them is the very
    post that was there (all fields), and they keep their relative order. *)
Lemma delete_success_undisturbed (s : AppState) (x : string) (ms : N)
  (d : JsVal) :
  postIdToDelete s = Some x ->
  let s1 := step ConfirmDelete s in
  let s2 := step (Elapse ms) s1 in
  let s3 := step (Settle (length (inflight (world s))) (Resolved d)) s2 in
  posts s3 = List.filter (fun p => negb (String.eqb (_id p) x)) (posts s) /\
  (forall p, In p (posts s3) <-> In p (posts s) /\ _id p <> x) /\
  posts s3 `sublist_of` posts s /\
  sent (world s3) = sent (world s) ++ [DeletePost (Some x)].
Proof.
  intros Hx s1 s2 s3.
  destruct (settle_appended (AwaitDelete (posts s) (Some x)) (inflight (world s)))
    as [Hnth _].
  assert (E : posts s3 = List.filter (fun p => negb (String.eqb (_id p) x)) (posts s)
              /\ sent (world s3) = sent (world s) ++ [DeletePost (Some x)]).
  { subst s3 s2 s1. cbn [step]. unfold handleDeleteConfirm. rewrite Hx.
    rewrite elapse_unfold. cbn. cbn in Hnth. rewrite Hnth. cbn.
    split; reflexivity. }
  destruct E as [E Hsent]. rewrite E.
  split; [reflexivity|]. split; [|split; [apply filter_sublist_of | exact Hsent]].
  intros p. rewrite filter_In, negb_true_iff.
  destruct (String.eqb_spec (_id p) x); intuition congruence.
Qed.

(** Whatever happens between the click and the success of the DELETE, the
    collection becomes the posts that the handler captured at the click, less
    those with the identifier under confirmation: the collection of the
    moment is not read. *)
Lemma delete_success_uses_captured_posts (s : AppState) (n : nat)
  (posts0 : list Post) (target : option string) (d : JsVal) :
  nth_error (inflight (world s)) n = Some (AwaitDelete posts0 target) ->
  posts (step (Settle n (Resolved d)) s)
  = List.filter (fun p => idDiffers p target) posts0.
Proof. intros Hnth. cbn [step]. rewrite Hnth. reflexivity. Qed.

(** C8 fails on these two runs, because the success branch of
    [handleDeleteConfirm] filters the [posts] captured at the click instead of
    the collection of the moment (as the updater functions of [handleLike]
    do). In the first, a like of post a is rolled back while the DELETE of
    post b is on its way: the success of the DELETE turns the like count of a
    from 3 back into 4. In the second, a save made before the delete was
    confirmed is answered while the DELETE is on its way and its refresh
    brings a new post c: the success of the DELETE of b drops c as well. *)
Theorem delete_success_overwrites_other_changes :
  let a := samplePost "a" "Result 2024" "Result" 3 in
  let b := samplePost "b" "Job Notice" "Job Notification" 0 in
  let c := samplePost "c" "Admit Card 2024" "Admit Card" 0 in
  let s0 := run [Mount; Settle 0 (Resolved (VArr [a; b]))]
                (initialState [] None 1000) in
  (let s := run [ClickLike "a"; ClickDelete "b"; ConfirmDelete;
                 Settle 0 (Rejected None)] s0 in
   let s' := step (Settle 0 (Resolved VNull)) s in
   inflight (world s) = [AwaitDelete [withLikes a 4; b] (Some "b")] /\
   List.map _id (posts s) = ["a"; "b"] /\
   List.map likes (posts s) = [3%Z; 0%Z] /\
   List.map _id (posts s') = ["a"] /\
   List.map likes (posts s') = [4%Z] /\
   likedPosts s' = []) /\
  (let s := run [ClickCreate; SubmitForm; ClosePostModal;
                 ClickDelete "b"; ConfirmDelete;
                 Settle 0 (Resolved (VObj []));
                 Settle 1 (Resolved (VArr [a; b; c]))] s0 in
   let s' := step (Settle 0 (Resolved VNull)) s in
   inflight (world s) = [AwaitDelete [a; b] (Some "b")] /\
   posts s = [a; b; c] /\
   posts s' = [a]).
Proof. vm_compute. repeat split; reflexivity. Qed.

(** ** Fetch *)

(** C7 (as the code has it): the GET settles. A bare array becomes the
    collection; so does the [data] array of an object whose [success] is
    truthy; in both cases no toast is added. Every other outcome empties the
    collection. The error toast is added only when the request is rejected or
    the body is [null] or [undefined] (reading [success] throws); a body of any
    other shape empties the collection silently. *)
Theorem fetch_settled_cases (s : AppState) (n : nat) (r : Settled) :
  nth_error (inflight (world s)) n = Some (AwaitGet None) ->
  let s1 := step (Settle n r) s in
  let failed := toasts s ++
    [mkToast (now (world s)) "Could not fetch posts. Please try again later."
             error] in
  loading s1 = false /\
  match r with
  | Resolved (VArr items) => posts s1 = items /\ toasts s1 = toasts s
  | Resolved (VObj fields) =>
      posts s1 = (if truthy (lookupField "success" fields)
                  then arrayOrEmpty (lookupField "data" fields) else []) /\
      toasts s1 = toasts s
  | Resolved VNull | Resolved VUndefined | Rejected _ =>
      posts s1 = [] /\ toasts s1 = failed
  | Resolved _ => posts s1 = [] /\ toasts s1 = toasts s
  end.
Proof.
  intros Hnth s1 failed. subst s1 failed. cbn [step]. rewrite Hnth.
  destruct r as [[| |b|z|str|items|fields]|m]; cbn; try (split; [|split]; reflexivity).
  destruct (truthy (lookupField "success" fields)); cbn; repeat split; reflexivity.
Qed.

Lemma fetch_settled_cases_witness :
  let a := samplePost "a" "Result 2024" "Result" 3 in
  let s := step Mount (initialState [] None 1000) in
  nth_error (inflight (world s)) 0 = Some (AwaitGet None) /\
  posts (step (Settle 0 (Resolved (VObj [("success", VBool true);
                                          ("data", VArr [a])]))) s) = [a].
Proof.
  intros a s.
  assert (Hnth : nth_error (inflight (world s)) 0 = Some (AwaitGet None))
    by reflexivity.
  split; [exact Hnth|].
  pose proof (fetch_settled_cases s 0
    (Resolved (VObj [("success", VBool true); ("data", VArr [a])])) Hnth) as H.
  cbv zeta in H. destruct H as [_ [H _]]. exact H.
Defined.

(** C7, as stated, fails: a body that is neither an array nor an envelope
    (an object without [success], a plain text, an envelope whose [data] is no
    array) leaves the collection empty but adds no error toast; after a save,
    such a body empties a collection that had a post and the only toast is the
    one that reports the save. *)
Lemma fetch_mismatch_is_silent :
  let a := samplePost "a" "Result 2024" "Result" 3 in
  let s := step Mount (initialState [] None 1000) in
  let shown (r : Settled) := step (Settle 0 r) s in
  (posts (shown (Resolved (VObj [("message", VStr "maintenance")]))) = [] /\
   toasts (shown (Resolved (VObj [("message", VStr "maintenance")]))) = []) /\
  toasts (shown (Resolved (VStr "<html>maintenance</html>"))) = [] /\
  toasts (shown (Resolved (VObj [("success", VBool true); ("data", VNull)]))) = [] /\
  (let s1 := run [Settle 0 (Resolved (VArr [a])); ClickCreate; SubmitForm;
                  Settle 0 (Resolved VNull)] s in
   let s2 := step (Settle 0 (Resolved (VObj [("message", VStr "maintenance")]))) s1 in
   posts s1 = [a] /\ posts s2 = [] /\
   List.map message (toasts s2) = ["Post created successfully!"]).
Proof. vm_compute. repeat split; reflexivity. Qed.

(** ** Toasts over time *)

Lemma expireAll_cons (tm : Timer) (fired : list Timer) (ts : list Toast) :
  expireAll (tm :: fired) ts
  = expireAll fired (List.filter (fun t => negb (id t =? target tm)%Z) ts).
Proof. reflexivity. Qed.

Lemma expireAll_subset (fired : list Timer) (ts : list Toast) (t : Toast) :
  In t (expireAll fired ts) -> In t ts.
Proof.
  revert ts; induction fired as [|tm fired IH]; intros ts H; [exact H|].
  rewrite expireAll_cons in H. apply IH in H. apply filter_In in H. tauto.
Qed.

Lemma expireAll_keeps (fired : list Timer) (ts : list Toast) (t : Toast) :
  In t ts -> (forall tm, In tm fired -> target tm <> id t) ->
  In t (expireAll fired ts).
Proof.
  revert ts; induction fired as [|tm fired IH]; intros ts Hin Hne; [exact Hin|].
  rewrite expireAll_cons. apply IH.
  - apply filter_In. split; [exact Hin|].
    apply negb_true_iff, Z.eqb_neq. intros E. apply (Hne tm); [now left | now symmetry].
  - intros tm' H'. apply Hne. now right.
Qed.

Lemma expireAll_removes (fired : list Timer) (ts : list Toast) (tm : Timer) :
  In tm fired -> forall t, In t (expireAll fired ts) -> id t <> target tm.
Proof.
  revert ts; induction fired as [|tm' fired IH]; intros ts Hin t Ht; [destruct Hin|].
  rewrite expireAll_cons in Ht. destruct Hin as [-> | Hin].
  - apply expireAll_subset, filter_In in Ht. destruct Ht as [_ Ht].
    now apply negb_true_iff, Z.eqb_neq in Ht.
  - now apply (IH _ Hin t Ht).
Qed.

Lemma resume_pushesOnly (n : nat) (k : Pending) (r : Settled) (s : AppState) :
  pushesOnly s (resume k r (setWorld (settled n) s)).
Proof.
  destruct k as [[cur|]|cur|posts0 tgt|postId]; destruct r as [data|m]; cbn;
    unfold fetchPosts_settled; try destruct (postsData data); pushes.
Qed.

Lemma step_pushesOnly (e : Event) (s : AppState) :
  (forall ms, e <> Elapse ms) -> pushesOnly s (step e s).
Proof.
  intros Hne. destruct e; cbn [step]; try pushes.
  - now contradiction (Hne ms).
  - destruct (nth_error (inflight (world s)) n); [apply resume_pushesOnly | pushes].
  - unfold handleLike. destruct (has (likedPostsSet s) postId); pushes.
  - unfold handleShare_settled. destruct ok; pushes.
Qed.

Lemma elapse_now (ms : N) (s : AppState) :
  now (world (elapse ms s)) = (now (world s) + Z.of_N ms)%Z.
Proof. rewrite elapse_unfold. reflexivity. Qed.

Lemma elapse_toasts (ms : N) (s : AppState) :
  toasts (elapse ms s)
  = expireAll (List.filter (fun tm => (due tm <=? now (world s) + Z.of_N ms)%Z)
                           (timers (world s))) (toasts s).
Proof. rewrite elapse_unfold. reflexivity. Qed.

Lemma elapse_timers (ms : N) (s : AppState) :
  timers (world (elapse ms s))
  = List.filter (fun tm => negb (due tm <=? now (world s) + Z.of_N ms)%Z)
                (timers (world s)).
Proof. rewrite elapse_unfold. reflexivity. Qed.

Lemma not_elapse_or (e : Event) :
  (exists ms, e = Elapse ms) \/ (forall ms, e <> Elapse ms).
Proof. destruct e; try (right; discriminate). left. now eexists. Qed.

Lemma step_now_mono (e : Event) (s : AppState) :
  (now (world s) <= now (world (step e s)))%Z.
Proof.
  destruct (not_elapse_or e) as [[ms ->] | Hne].
  - cbn [step]. rewrite elapse_now. lia.
  - destruct (step_pushesOnly e s Hne) as [-> _]. lia.
Qed.

Lemma run_now_mono (es : list Event) (s : AppState) :
  (now (world s) <= now (world (run es s)))%Z.
Proof.
  revert s; induction es as [|e es IH]; intros s; cbn; [lia|].
  etransitivity; [apply (step_now_mono e) | apply IH].
Qed.

Lemma step_timersWf (e : Event) (s : AppState) :
  timersWf s -> timersWf (step e s).
Proof.
  unfold timersWf. intros Hwf.
  destruct (not_elapse_or e) as [[ms ->] | Hne].
  - cbn [step]. rewrite elapse_timers. rewrite List.Forall_forall in *.
    intros tm Htm. apply filter_In in Htm. now apply Hwf.
  - destruct (step_pushesOnly e s Hne) as [_ [new [_ [-> _]]]].
    apply Forall_app. split; [exact Hwf|].
    apply List.Forall_forall. intros tm Htm. apply in_map_iff in Htm.
    destruct Htm as [t [<- _]]. reflexivity.
Qed.

Lemma run_timersWf (es : list Event) (s : AppState) :
  timersWf s -> timersWf (run es s).
Proof.
  revert s; induction es as [|e es IH]; intros s Hwf; [exact Hwf|].
  cbn. apply IH. now apply step_timersWf.
Qed.

Lemma initial_timersWf (liked : list string) (stored : option string) (t0 : Z) :
  timersWf (initialState liked stored t0).
Proof. constructor. Qed.

Lemma count_occ_filter_kept {A} (dec : forall x y : A, {x = y} + {x <> y})
  (f : A -> bool) (l : list A) (a : A) :
  f a = true -> count_occ dec (List.filter f l) a = count_occ dec l a.
Proof.
  intros Hfa. induction l as [|x l IH]; [reflexivity|]. cbn.
  destruct (f x) eqn:Hfx; cbn; destruct (dec x a) as [->|Hne]; try congruence.
Qed.

Lemma expireAll_count (fired : list Timer) (ts : list Toast) (t : Toast) :
  (forall tm, In tm fired -> target tm <> id t) ->
  count_occ Toast_eq_dec (expireAll fired ts) t = count_occ Toast_eq_dec ts t.
Proof.
  revert ts; induction fired as [|tm fired IH]; intros ts Hne; [reflexivity|].
  rewrite expireAll_cons, IH by (intros tm' H'; apply Hne; now right).
  apply count_occ_filter_kept. apply negb_true_iff, Z.eqb_neq.
  intros E. apply (Hne tm); [now left | now symmetry].
Qed.

(** The copies of a toast all stay in the list as long as fewer than 4000 ms
    have passed since the instant of its id. *)
Lemma step_keeps_toast (e : Event) (s : AppState) (t : Toast) :
  timersWf s -> (now (world (step e s)) < id t + 4000)%Z ->
  count_occ Toast_eq_dec (toasts s) t
  <= count_occ Toast_eq_dec (toasts (step e s)) t.
Proof.
  intros Hwf Hearly.
  destruct (not_elapse_or e) as [[ms ->] | Hne].
  - cbn [step] in *. rewrite elapse_now in Hearly. rewrite elapse_toasts.
    rewrite expireAll_count; [lia|].
    intros tm Htm E. apply filter_In in Htm. destruct Htm as [Htm Hdue].
    unfold timersWf in Hwf. rewrite List.Forall_forall in Hwf.
    specialize (Hwf tm Htm). apply Z.leb_le in Hdue. lia.
  - destruct (step_pushesOnly e s Hne) as [_ [new [-> _]]].
    rewrite count_occ_app. lia.
Qed.

Lemma run_keeps_toast (es : list Event) (s : AppState) (t : Toast) :
  timersWf s -> (now (world (run es s)) < id t + 4000)%Z ->
  count_occ Toast_eq_dec (toasts s) t
  <= count_occ Toast_eq_dec (toasts (run es s)) t.
Proof.
  revert s; induction es as [|e es IH]; intros s Hwf Hearly; [cbn; lia|].
  cbn in *. etransitivity; [|apply IH; [now apply step_timersWf | exact Hearly]].
  apply step_keeps_toast; [exact Hwf|].
  pose proof (run_now_mono es (step e s)). unfold run in *. lia.
Qed.

Lemma step_expiresAt (T : Z) (e : Event) (s : AppState) :
  expiresAt T s -> expiresAt T (step e s).
Proof.
  intros [Hle [Hqueued Hgone]].
  destruct (not_elapse_or e) as [[ms ->] | Hne].
  - cbn [step]. unfold expiresAt.
    rewrite elapse_now, elapse_timers, elapse_toasts.
    split; [lia|]. split.
    + intros Hearly. apply filter_In. split; [apply Hqueued; lia|].
      cbn. apply negb_true_iff, Z.leb_gt. lia.
    + intros Hlate t Ht.
      destruct (Z_lt_le_dec (now (world s)) (T + 4000)) as [Hearly | Hlate0].
      * apply (expireAll_removes _ _ (mkTimer (T + 4000) T)) in Ht; [exact Ht|].
        apply filter_In. split; [now apply Hqueued|]. cbn. apply Z.leb_le. lia.
      * apply expireAll_subset in Ht. now apply Hgone.
  - destruct (step_pushesOnly e s Hne) as [Hnow [new [Htoasts [Htimers Hnew]]]].
    unfold expiresAt. rewrite Hnow, Htoasts, Htimers.
    split; [exact Hle|]. split.
    + intros Hearly. apply in_or_app. left. now apply Hqueued.
    + intros Hlate t Ht. apply in_app_or in Ht. destruct Ht as [Ht | Ht].
      * now apply Hgone.
      * rewrite List.Forall_forall in Hnew. rewrite (Hnew t Ht). lia.
Qed.

Lemma run_expiresAt (T : Z) (es : list Event) (s : AppState) :
  expiresAt T s -> expiresAt T (run es s).
Proof.
  revert s; induction es as [|e es IH]; intros s H; [exact H|].
  cbn. apply IH. now apply step_expiresAt.
Qed.

Lemma addToast_expiresAt (m : string) (k : ToastType) (s : AppState) :
  expiresAt (now (world s)) (addToast m k s).
Proof.
  unfold expiresAt. cbn. split; [lia|]. split.
  - intros _. apply in_or_app. right. now left.
  - intros Hlate. lia.
Qed.

(** C6: the life of a toast. [addToast] at instant [T] appends one toast with
    id [T] and appends one timer due at [T + 4000], leaving the toasts and the
    timers already there as they are; pushing the same message again at the
    same instant appends a second toast and a second timer. Whatever events
    follow (further pushes included), as long as the clock reads at most
    [T + 3999] every copy of the toast is still in the list, and once it reads
    [T + 4001] or more no toast with id [T] is left. Time passing is the only
    event that takes timers out of the queue. *)
Theorem toast_lifetime (s : AppState) (m : string) (k : ToastType)
  (es : list Event) :
  timersWf s ->
  let T := now (world s) in
  let s1 := addToast m k s in
  let s2 := run es s1 in
  toasts s1 = toasts s ++ [mkToast T m k] /\
  timers (world s1) = timers (world s) ++ [mkTimer (T + 4000) T] /\
  toasts (addToast m k s1) = toasts s ++ [mkToast T m k; mkToast T m k] /\
  timers (world (addToast m k s1))
  = timers (world s) ++ [mkTimer (T + 4000) T; mkTimer (T + 4000) T] /\
  ((now (world s2) <= T + 3999)%Z ->
     In (mkToast T m k) (toasts s2) /\
     count_occ Toast_eq_dec (toasts s1) (mkToast T m k)
     <= count_occ Toast_eq_dec (toasts s2) (mkToast T m k)) /\
  ((T + 4001 <= now (world s2))%Z ->
     forall t, In t (toasts s2) -> id t <> T) /\
  (forall e, (forall ms, e <> Elapse ms) ->
     exists more, timers (world (step e s2)) = timers (world s2) ++ more).
Proof.
  intros Hwf T s1 s2.
  assert (Hwf1 : timersWf s1).
  { unfold timersWf. subst s1. cbn. apply Forall_app. split; [exact Hwf|].
    repeat constructor. }
  split; [reflexivity|]. split; [reflexivity|].
  split; [subst s1; cbn; now rewrite <- app_assoc|].
  split; [subst s1; cbn; now rewrite <- app_assoc|].
  split; [|split].
  - intros Hearly.
    assert (Hcount : count_occ Toast_eq_dec (toasts s1) (mkToast T m k)
                     <= count_occ Toast_eq_dec (toasts s2) (mkToast T m k)).
    { apply run_keeps_toast; [exact Hwf1 | cbn; fold s2; lia]. }
    split; [|exact Hcount].
    apply (count_occ_In Toast_eq_dec).
    assert (count_occ Toast_eq_dec (toasts s1) (mkToast T m k) > 0).
    { apply count_occ_In. subst s1. cbn. apply in_or_app. right. now left. }
    lia.
  - intros Hlate.
    destruct (run_expiresAt T es s1 (addToast_expiresAt m k s)) as [_ [_ Hgone]].
    apply Hgone. fold s2. lia.
  - intros e Hne.
    destruct (step_pushesOnly e s2 Hne) as [_ [new [_ [Htimers _]]]].
    eexists. exact Htimers.
Qed.

Lemma toast_lifetime_witness :
  let s := run [Mount; Settle 0 (Rejected None); Elapse 1500]
               (initialState [] None 1000) in
  let early := run [Elapse 3999] (addToast "Shared successfully!" success s) in
  let late := run [Elapse 3998; ClickShare true false; Elapse 3]
                  (addToast "Shared successfully!" success s) in
  timersWf s /\
  (now (world early) = 6499%Z /\
   In (mkToast 2500 "Shared successfully!" success) (toasts early)) /\
  (now (world late) = 6501%Z /\
   (forall t, In t (toasts late) -> id t <> 2500%Z) /\
   List.map id (toasts late) = [6498%Z]).
Proof.
  intros s early late.
  assert (Hwf : timersWf s) by (apply run_timersWf, initial_timersWf).
  split; [exact Hwf|]. split.
  - split; [reflexivity|].
    pose proof (toast_lifetime s "Shared successfully!" success [Elapse 3999] Hwf)
      as H.
    cbv zeta in H. destruct H as [_ [_ [_ [_ [Hearly _]]]]].
    apply Hearly. vm_compute. discriminate.
  - split; [reflexivity|]. split; [|reflexivity].
    pose proof (toast_lifetime s "Shared successfully!" success
                  [Elapse 3998; ClickShare true false; Elapse 3] Hwf) as H.
    cbv zeta in H. destruct H as [_ [_ [_ [_ [_ [Hlate _]]]]]].
    apply Hlate. vm_compute. discriminate.
Defined.

(** ** The like count under a refresh *)

(** C4 fails on this run: a post with zero likes is liked, a post is saved
    while the like request is still on its way, the refresh that follows the
    save brings the server's count (zero) back, and then the like request
    fails: the rollback takes one off the refreshed count and leaves -1. All
    counts sent by the server are zero or more. *)
Theorem like_rollback_after_refresh_goes_negative :
  let a := samplePost "a" "Result 2024" "Result" 0 in
  let b := samplePost "b" "Job Notice" "Job Notification" 0 in
  let es := [Mount; Settle 0 (Resolved (VArr [a]));
             ClickLike "a";
             ClickCreate; SubmitForm; Settle 1 (Resolved (VObj []));
             Settle 1 (Resolved (VArr [a; b]));
             Settle 0 (Rejected None)] in
  let s := run es (initialState [] None 1000) in
  List.map _id (posts s) = ["a"; "b"] /\
  List.map likes (posts s) = [(-1)%Z; 0%Z] /\
  ~ likesNonNegative s.
Proof.
  cbv zeta. split; [reflexivity|]. split; [reflexivity|].
  intros H. apply Forall_inv in H. vm_compute in H. now apply H.
Qed.

(** * Further properties of the component *)

(** ** More on the derived view *)

Lemma string_app_assoc (a b c : string) :
  ((a ++ b) ++ c = a ++ (b ++ c))%string.
Proof.
  induction a as [|x a IH]; [reflexivity|].
  change (String x ((a ++ b) ++ c) = String x (a ++ (b ++ c)))%string.
  now rewrite IH.
Qed.

Lemma occursIn_trans (a b c : string) :
  occursIn a b -> occursIn b c -> occursIn a c.
Proof.
  intros [x [y ->]] [u [v ->]]. exists (u ++ x)%string, (y ++ v)%string.
  now rewrite !string_app_assoc.
Qed.

Lemma filter_filter_andb {A} (f g : A -> bool) (l : list A) :
  List.filter f (List.filter g l) = List.filter (fun x => g x && f x) l.
Proof.
  induction l as [|x l IH]; [reflexivity|]. cbn.
  destruct (g x); cbn; [destruct (f x)|]; now rewrite IH.
Qed.

Lemma filter_map_comm {A B} (f : B -> bool) (g : A -> B) (l : list A) :
  List.filter f (List.map g l) = List.map g (List.filter (fun x => f (g x)) l).
Proof.
  induction l as [|x l IH]; [reflexivity|]. cbn.
  destruct (f (g x)); cbn; now rewrite IH.
Qed.

Lemma matchesPost_narrows (t1 t2 filt : string) (p : Post) :
  occursIn (Js.toLowerCase t1) (Js.toLowerCase t2) ->
  matchesPost t2 filt p = true -> matchesPost t1 filt p = true.
Proof.
  intros Hocc. rewrite !matchesPost_true. intros [Hsearch Hfilt].
  split; [|exact Hfilt].
  destruct Hsearch as [H | H]; [left | right];
    exact (occursIn_trans _ _ _ Hocc H).
Qed.

(** X1: a search term that contains another narrows the view. When the
    lower-cased form of the term [t1] occurs in the lower-cased form of the
    term [t2], the posts shown for [t2] are a subsequence of the posts shown
    for [t1], under any filter. *)
Theorem search_narrows (ps : list Post) (t1 t2 filt : string) :
  occursIn (Js.toLowerCase t1) (Js.toLowerCase t2) ->
  filteredPosts ps t2 filt `sublist_of` filteredPosts ps t1 filt.
Proof.
  intros Hocc. unfold filteredPosts.
  replace (List.filter (matchesPost t2 filt) ps)
    with (List.filter (matchesPost t2 filt) (List.filter (matchesPost t1 filt) ps)).
  - apply filter_sublist_of.
  - rewrite filter_filter_andb. apply filter_ext. intros p.
    destruct (matchesPost t2 filt p) eqn:E2.
    + now rewrite (matchesPost_narrows _ _ _ _ Hocc E2).
    + apply andb_false_r.
Qed.

Lemma search_narrows_witness :
  let ps := [samplePost "a" "Result 2024" "Result" 3;
             samplePost "b" "Job Results" "Job Notification" 0] in
  occursIn (Js.toLowerCase "Result") (Js.toLowerCase "result 2") /\
  filteredPosts ps "result 2" "all"
    `sublist_of` filteredPosts ps "Result" "all" /\
  List.map _id (filteredPosts ps "Result" "all") = ["a"; "b"] /\
  List.map _id (filteredPosts ps "result 2" "all") = ["a"].
Proof.
  intros ps.
  assert (Hocc : occursIn (Js.toLowerCase "Result") (Js.toLowerCase "result 2"))
    by (exists "", " 2"; reflexivity).
  split; [exact Hocc|]. split; [|split; reflexivity].
  exact (search_narrows ps "Result" "result 2" "all" Hocc).
Defined.

Lemma matchesPost_split (term filt : string) (p : Post) :
  matchesPost term filt p = matchesPost term "all" p && matchesPost "" filt p.
Proof.
  unfold matchesPost. cbn [Js.toLowerCase]. rewrite !includes_empty. cbn.
  now rewrite andb_true_r.
Qed.

Lemma filteredPosts_all_posts (ps : list Post) : filteredPosts ps "" "all" = ps.
Proof.
  unfold filteredPosts. induction ps as [|p ps IH]; [reflexivity|].
  cbn [List.filter]. rewrite matchesPost_split. unfold matchesPost at 1 2.
  cbn [Js.toLowerCase]. rewrite !includes_empty. cbn. now rewrite IH.
Qed.

(** X2: search and category filter compose. Filtering by term and category is
    the same as searching first and filtering the result by category, or the
    other way round; and filtering the view again with the same term and
    category gives the view back. *)
Theorem filteredPosts_compose (ps : list Post) (term filt : string) :
  filteredPosts ps term filt
  = filteredPosts (filteredPosts ps term "all") "" filt /\
  filteredPosts ps term filt
  = filteredPosts (filteredPosts ps "" filt) term "all" /\
  filteredPosts (filteredPosts ps term filt) term filt
  = filteredPosts ps term filt.
Proof.
  unfold filteredPosts. rewrite !filter_filter_andb. repeat split.
  - apply filter_ext. intros p. apply matchesPost_split.
  - apply filter_ext. intros p. rewrite (matchesPost_split term filt).
    apply andb_comm.
  - apply filter_ext. intros p. now destruct (matchesPost term filt p).
Qed.

Lemma matchesPost_bumpLikes (term filt postId : string) (d : Z) (p : Post) :
  matchesPost term filt (bumpLikes postId d p) = matchesPost term filt p.
Proof. unfold bumpLikes. now destruct (String.eqb (_id p) postId). Qed.

(** X3: likes never change what is shown. Raising or lowering the like count
    of a post commutes with the view, so the optimistic increment of a like
    click and its rollback leave the same cards in the same order, only the
    count on them differs. *)
Theorem likes_keep_view (s : AppState) (postId term filt : string) (d : Z) :
  filteredPosts (List.map (bumpLikes postId d) (posts s)) term filt
  = List.map (bumpLikes postId d) (filteredPosts (posts s) term filt) /\
  List.map _id (filteredPosts (posts (step (ClickLike postId) s)) term filt)
  = List.map _id (filteredPosts (posts s) term filt) /\
  (forall r, List.map _id
               (filteredPosts (posts (handleLike_settled postId r s)) term filt)
             = List.map _id (filteredPosts (posts s) term filt)).
Proof.
  assert (Hcore : forall d' ps,
    filteredPosts (List.map (bumpLikes postId d') ps) term filt
    = List.map (bumpLikes postId d') (filteredPosts ps term filt)).
  { intros d' ps. unfold filteredPosts. rewrite filter_map_comm. f_equal.
    apply filter_ext. intros p. apply matchesPost_bumpLikes. }
  assert (Hids : forall d' ps,
    List.map _id (List.map (bumpLikes postId d') ps) = List.map _id ps).
  { intros d' ps. rewrite List.map_map. apply List.map_ext. intros p.
    unfold bumpLikes. now destruct (String.eqb (_id p) postId). }
  split; [apply Hcore|]. split.
  - cbn [step]. unfold handleLike. destruct (has (likedPostsSet s) postId).
    + reflexivity.
    + cbn -[filteredPosts]. now rewrite Hcore, Hids.
  - intros [data|m]; [reflexivity|]. cbn -[filteredPosts].
    now rewrite Hcore, Hids.
Qed.

(** X4: the empty-state message. "No posts have been published yet" is on
    screen exactly when loading is over, the collection is empty, the search
    box is empty and the filter is "all"; so it is never shown while the
    collection holds a post. *)
Theorem no_posts_message_iff (s : AppState) :
  mainContent s = EmptyState "No posts have been published yet" <->
  loading s = false /\ posts s = [] /\ searchTerm s = "" /\ activeFilter s = "all".
Proof.
  unfold mainContent. split.
  - destruct (loading s); [discriminate|].
    destruct (0 <? List.length _)%nat eqn:Hlen; [discriminate|].
    destruct (String.eqb_spec (searchTerm s) "") as [Ht|]; [|discriminate].
    destruct (String.eqb_spec (activeFilter s) "all") as [Hf|]; [|discriminate].
    intros _. rewrite Ht, Hf, filteredPosts_all_posts in Hlen.
    apply Nat.ltb_ge in Hlen. repeat split; try assumption.
    destruct (posts s); [reflexivity | cbn in Hlen; lia].
  - intros [-> [-> [-> ->]]]. reflexivity.
Qed.

(** ** The excerpt of a card *)

Lemma afterGt_shorter (s rest : string) :
  afterGt s = Some rest -> String.length rest < String.length s.
Proof.
  revert rest; induction s as [|c s IH]; intros rest; cbn; [discriminate|].
  destruct (Ascii.eqb c ">"); [intros [= ->]; lia|].
  intros H. apply IH in H. lia.
Qed.

(** Any fuel from the length of the text on gives the same result. *)
Lemma stripTagsFrom_enough (n m : nat) (s : string) :
  String.length s <= n -> String.length s <= m ->
  stripTagsFrom n s = stripTagsFrom m s.
Proof.
  revert m s; induction n as [|n IH]; intros m s Hn Hm.
  - destruct s; [|cbn in Hn; lia]. now destruct m.
  - destruct m as [|m]; [destruct s; [reflexivity | cbn in Hm; lia]|].
    destruct s as [|c s']; [reflexivity|]. cbn [stripTagsFrom].
    cbn in Hn, Hm.
    destruct (if Ascii.eqb c "<" then afterGt s' else None) as [rest|] eqn:E.
    + destruct (Ascii.eqb c "<"); [|discriminate].
      apply afterGt_shorter in E. apply IH; lia.
    + f_equal. apply IH; lia.
Qed.

Lemma stripTags_tag (s' rest : string) :
  afterGt s' = Some rest -> stripTags (String "<" s') = stripTags rest.
Proof.
  intros H. unfold stripTags. cbn [String.length stripTagsFrom Ascii.eqb].
  change (Ascii.eqb "<" "<") with true. cbv iota. rewrite H.
  apply stripTagsFrom_enough; [|lia]. apply afterGt_shorter in H. lia.
Qed.

Lemma stripTags_keep (c : ascii) (s' : string) :
  (if Ascii.eqb c "<" then afterGt s' else None) = None ->
  stripTags (String c s') = String c (stripTags s').
Proof.
  intros H. unfold stripTags. cbn [String.length stripTagsFrom].
  now rewrite H.
Qed.

Lemma afterGt_none_tail (c : ascii) (s : string) :
  afterGt (String c s) = None -> afterGt s = None.
Proof. cbn. now destruct (Ascii.eqb c ">"). Qed.

Lemma stripTags_without_gt (s : string) : afterGt s = None -> stripTags s = s.
Proof.
  induction s as [|c s IH]; intros H; [reflexivity|].
  pose proof (afterGt_none_tail _ _ H) as H'.
  rewrite stripTags_keep; [now rewrite IH|].
  now destruct (Ascii.eqb c "<").
Qed.

Lemma tagFree_without_gt (s : string) : afterGt s = None -> tagFree s = true.
Proof.
  induction s as [|c s IH]; intros H; [reflexivity|].
  pose proof (afterGt_none_tail _ _ H) as H'. cbn.
  rewrite H', (IH H'). now rewrite orb_true_r.
Qed.

Lemma stripTags_tagFree_upto (n : nat) (s : string) :
  String.length s < n -> tagFree (stripTags s) = true.
Proof.
  revert s; induction n as [|n IH]; intros s Hlen; [lia|].
  destruct s as [|c s']; [reflexivity|].
  destruct (if Ascii.eqb c "<" then afterGt s' else None) as [rest|] eqn:E.
  - destruct (Ascii.eqb_spec c "<") as [->|]; [|discriminate].
    rewrite (stripTags_tag _ _ E). apply IH.
    apply afterGt_shorter in E. cbn in Hlen. lia.
  - rewrite (stripTags_keep _ _ E). cbn [tagFree].
    rewrite (IH s') by (cbn in Hlen; lia). rewrite andb_true_r.
    destruct (Ascii.eqb c "<"); [|reflexivity]. cbn.
    now rewrite (stripTags_without_gt _ E), E.
Qed.

Lemma stripTags_tagFree (s : string) : tagFree (stripTags s) = true.
Proof. apply (stripTags_tagFree_upto (S (String.length s))). lia. Qed.

Lemma stripTags_fixes_tagFree (s : string) : tagFree s = true -> stripTags s = s.
Proof.
  induction s as [|c s IH]; intros H; [reflexivity|].
  cbn in H. apply andb_true_iff in H as [Hc Hs].
  rewrite stripTags_keep; [now rewrite IH|].
  destruct (Ascii.eqb c "<"); [|reflexivity]. cbn in Hc.
  now destruct (afterGt s).
Qed.

Lemma stripTags_length_upto (n : nat) (s : string) :
  String.length s < n -> String.length (stripTags s) <= String.length s.
Proof.
  revert s; induction n as [|n IH]; intros s Hlen; [lia|].
  destruct s as [|c s']; [reflexivity|].
  destruct (if Ascii.eqb c "<" then afterGt s' else None) as [rest|] eqn:E.
  - destruct (Ascii.eqb_spec c "<") as [->|]; [|discriminate].
    rewrite (stripTags_tag _ _ E). pose proof (afterGt_shorter _ _ E).
    cbn in Hlen |- *. specialize (IH rest). lia.
  - rewrite (stripTags_keep _ _ E). cbn in Hlen |- *. specialize (IH s'). lia.
Qed.

Lemma afterGt_app_gt (b c : string) : afterGt (b ++ String ">" c) <> None.
Proof.
  induction b as [|x b IH]; [discriminate|].
  change (afterGt (String x (b ++ String ">" c)) <> None). cbn [afterGt].
  destruct (Ascii.eqb x ">"); [discriminate | exact IH].
Qed.

Lemma tagFree_app_r (a b : string) : tagFree (a ++ b) = true -> tagFree b = true.
Proof.
  induction a as [|x a IH]; [trivial|].
  change (tagFree (String x (a ++ b)) = true -> tagFree b = true).
  cbn [tagFree]. intros H. apply andb_true_iff in H as [_ H]. now apply IH.
Qed.

Lemma tagFree_no_tag (s : string) : tagFree s = true -> ~ hasTag s.
Proof.
  intros Hfree [a [b [c ->]]]. apply tagFree_app_r in Hfree. cbn in Hfree.
  apply andb_true_iff in Hfree as [Hfree _].
  pose proof (afterGt_app_gt b c) as Hgt.
  change (b ++ ">" ++ c)%string with (b ++ String ">" c)%string in Hfree.
  now destruct (afterGt (b ++ String ">" c)).
Qed.

Lemma no_lt_tagFree (s : string) : ~ occursIn "<" s -> tagFree s = true.
Proof.
  induction s as [|c s IH]; intros Hno; [reflexivity|]. cbn.
  destruct (Ascii.eqb_spec c "<") as [->|Hne].
  - exfalso. apply Hno. exists "", s. reflexivity.
  - cbn. apply IH. intros [x [y ->]]. apply Hno.
    exists (String c x), y. reflexivity.
Qed.

(** X5: stripping tags. The scan ends within as many steps as the content has
    characters (more fuel gives the same text). The stripped content holds no
    tag any more (no [<] with a [>] after it), so stripping it again changes
    nothing; it is never longer than the content; and a content without [<],
    or without [>], is left as it is. *)
Theorem stripTags_removes_tags (s : string) :
  (forall fuel, String.length s <= fuel -> stripTagsFrom fuel s = stripTags s) /\
  ~ hasTag (stripTags s) /\
  stripTags (stripTags s) = stripTags s /\
  String.length (stripTags s) <= String.length s /\
  (~ occursIn "<" s -> stripTags s = s) /\
  (~ occursIn ">" s -> stripTags s = s).
Proof.
  split; [intros fuel Hfuel; now apply stripTagsFrom_enough|].
  split; [apply tagFree_no_tag, stripTags_tagFree|].
  split; [apply stripTags_fixes_tagFree, stripTags_tagFree|].
  split; [apply (stripTags_length_upto (S (String.length s))); lia|].
  split.
  - intros Hno. now apply stripTags_fixes_tagFree, no_lt_tagFree.
  - intros Hno. apply stripTags_without_gt.
    destruct (afterGt s) as [rest|] eqn:E; [|reflexivity].
    exfalso. apply Hno. clear Hno. revert rest E.
    induction s as [|c s IH]; intros rest; cbn; [discriminate|].
    destruct (Ascii.eqb_spec c ">") as [->|Hne].
    + intros _. exists "", s. reflexivity.
    + intros E. destruct (IH _ E) as [x [y ->]].
      exists (String c x), y. reflexivity.
Qed.

Lemma stripTags_removes_tags_witness :
  stripTags "<p>Apply <b>now</b></p>" = "Apply now" /\
  stripTags "marks < 40" = "marks < 40" /\
  stripTags "a<b c>d x < y" = "ad x < y".
Proof.
  split; [reflexivity|]. split; [|reflexivity].
  destruct (stripTags_removes_tags "marks < 40") as [_ [_ [_ [_ [_ Hgt]]]]].
  apply Hgt. intros [x [y H]].
  assert (Hnone : afterGt "marks < 40" = None) by reflexivity.
  rewrite H in Hnone. now apply (afterGt_app_gt x y).
Defined.

Lemma substring_prefix (n : nat) (t : string) :
  exists rest, t = (String.substring 0 n t ++ rest)%string /\
  String.length (String.substring 0 n t) = Nat.min n (String.length t).
Proof.
  revert t; induction n as [|n IH]; intros [|c t].
  - exists "". split; reflexivity.
  - exists (String c t). split; reflexivity.
  - exists "". split; reflexivity.
  - destruct (IH t) as [rest [Ht Hlen]]. exists rest. split.
    + change (String c t = String c (String.substring 0 n t ++ rest)%string).
      now rewrite <- Ht.
    + cbn. now rewrite Hlen.
Qed.

Lemma string_length_app (a b : string) :
  String.length (a ++ b) = String.length a + String.length b.
Proof.
  induction a as [|c a IH]; [reflexivity|].
  change (S (String.length (a ++ b)) = S (String.length a + String.length b)).
  now rewrite IH.
Qed.

Lemma afterGt_dots (x rest : string) :
  afterGt (x ++ rest) = None -> afterGt (x ++ "...") = None.
Proof.
  induction x as [|c x IH]; [reflexivity|].
  change (afterGt (String c (x ++ rest)) = None ->
          afterGt (String c (x ++ "...")) = None).
  cbn [afterGt]. destruct (Ascii.eqb c ">"); [discriminate | exact IH].
Qed.

Lemma tagFree_dots (x rest : string) :
  tagFree (x ++ rest) = true -> tagFree (x ++ "...") = true.
Proof.
  induction x as [|c x IH]; [reflexivity|].
  change (tagFree (String c (x ++ rest)) = true ->
          tagFree (String c (x ++ "...")) = true).
  cbn [tagFree]. intros H. apply andb_true_iff in H as [Hc Hx].
  rewrite (IH Hx), andb_true_r.
  destruct (Ascii.eqb c "<"); [|reflexivity]. cbn in Hc |- *.
  destruct (afterGt (x ++ rest)) eqn:E; [discriminate|].
  now rewrite (afterGt_dots _ _ E).
Qed.

(** X6: the excerpt of a card. It holds no tag, it is at most 123 characters
    long, it is the stripped content itself when that has at most 120
    characters, and otherwise the first 120 characters of the stripped content
    followed by three dots. *)
Theorem excerpt_bounded (p : Post) :
  let text := stripTags (content p) in
  ~ hasTag (excerpt p) /\
  String.length (excerpt p) <= 123 /\
  (String.length text <= 120 -> excerpt p = text) /\
  (120 < String.length text ->
   exists head rest, text = (head ++ rest)%string /\ String.length head = 120 /\
                     excerpt p = (head ++ "...")%string).
Proof.
  intros text. unfold excerpt. fold text.
  destruct (substring_prefix 120 text) as [rest [Ht Hlen]].
  destruct (Nat.ltb_spec 120 (String.length text)) as [Hlong | Hshort].
  - split; [|split; [|split]].
    + apply tagFree_no_tag, (tagFree_dots _ rest). rewrite <- Ht.
      apply stripTags_tagFree.
    + rewrite string_length_app, Hlen. change (String.length "...") with 3. lia.
    + lia.
    + intros _. exists (String.substring 0 120 text), rest.
      split; [exact Ht|]. split; [rewrite Hlen; lia | reflexivity].
  - split; [|split; [|split]].
    + apply tagFree_no_tag, stripTags_tagFree.
    + lia.
    + reflexivity.
    + lia.
Qed.

Lemma excerpt_bounded_witness :
  let p := mkPost "a" "Result 2024"
             "<p>Hall tickets are <b>out</b>.</p>" "Admit Card" 0 0 None None "" in
  String.length (stripTags (content p)) <= 120 /\
  excerpt p = "Hall tickets are out.".
Proof.
  intros p.
  assert (Hshort : String.length (stripTags (content p)) <= 120)
    by (vm_compute; lia).
  split; [exact Hshort|].
  destruct (excerpt_bounded p) as [_ [_ [Hsame _]]].
  rewrite (Hsame Hshort). reflexivity.
Defined.

(** ** Toasts in every reachable state *)

Lemma step_toastsTimed (e : Event) (s : AppState) :
  toastsTimed s -> toastsTimed (step e s).
Proof.
  intros [Hwf [Hdue Htimed]].
  split; [now apply step_timersWf|].
  destruct (not_elapse_or e) as [[ms ->] | Hne].
  - cbn [step]. rewrite elapse_now. split.
    + intros tm Htm. rewrite elapse_timers in Htm. apply filter_In in Htm.
      destruct Htm as [_ Htm]. apply negb_true_iff, Z.leb_gt in Htm. exact Htm.
    + intros t Ht. rewrite elapse_toasts in Ht.
      pose proof (expireAll_subset _ _ _ Ht) as Hold.
      destruct (Htimed t Hold) as [Hid Hq]. split; [lia|].
      rewrite elapse_timers. apply filter_In. split; [exact Hq|].
      apply negb_true_iff. cbn [due]. apply Z.leb_gt.
      destruct (Z_lt_le_dec (now (world s) + Z.of_N ms) (id t + 4000))
        as [Hlt | Hge]; [exact Hlt|]. exfalso.
      apply (expireAll_removes _ _ (mkTimer (id t + 4000) (id t))) in Ht.
      * now apply Ht.
      * apply filter_In. split; [exact Hq|]. cbn. now apply Z.leb_le.
  - destruct (step_pushesOnly e s Hne) as [Hnow [new [Htoasts [Htimers Hnew]]]].
    rewrite Hnow, Htoasts, Htimers. rewrite List.Forall_forall in Hnew. split.
    + intros tm Htm. apply in_app_or in Htm. destruct Htm as [Htm | Htm].
      * now apply Hdue.
      * apply in_map_iff in Htm. destruct Htm as [t [<- Ht]]. cbn.
        rewrite (Hnew t Ht). lia.
    + intros t Ht. apply in_app_or in Ht. destruct Ht as [Ht | Ht].
      * destruct (Htimed t Ht) as [Hid Hq]. split; [exact Hid|].
        apply in_or_app. now left.
      * split; [rewrite (Hnew t Ht); lia|]. apply in_or_app. right.
        apply in_map_iff. now exists t.
Qed.

Lemma run_toastsTimed (es : list Event) (s : AppState) :
  toastsTimed s -> toastsTimed (run es s).
Proof.
  revert s; induction es as [|e es IH]; intros s H; [exact H|].
  cbn. apply IH. now apply step_toastsTimed.
Qed.

(** X7: no stale toast. In every state the component can reach, each toast in
    the list was pushed less than 4000 ms ago (its id is an instant of the
    past 4000 ms) and the timer that will remove it is still in the queue, due
    4000 ms after that instant. *)
Theorem toasts_always_fresh (es : list Event) (liked : list string)
  (stored : option string) (t0 : Z) (t : Toast) :
  let s := run es (initialState liked stored t0) in
  In t (toasts s) ->
  (id t <= now (world s) < id t + 4000)%Z /\
  In (mkTimer (id t + 4000) (id t)) (timers (world s)).
Proof.
  intros s Ht.
  assert (Hinit : toastsTimed (initialState liked stored t0)).
  { split; [apply initial_timersWf|]. split; intros x []. }
  destruct (run_toastsTimed es _ Hinit) as [_ [Hdue Htimed]]. fold s in Hdue, Htimed.
  destruct (Htimed t Ht) as [Hid Hq]. split; [|exact Hq].
  specialize (Hdue _ Hq). cbn in Hdue. lia.
Qed.

Lemma toasts_always_fresh_witness :
  let es := [Mount; Settle 0 (Rejected None); Elapse 3000; ClickShare true true;
             Elapse 1500] in
  let s := run es (initialState [] None 1000) in
  let t := mkToast 4000 "Shared successfully!" success in
  toasts s = [t] /\ now (world s) = 5500%Z /\
  (id t <= now (world s) < id t + 4000)%Z.
Proof.
  intros es s t.
  assert (Ht : In t (toasts s)) by (left; reflexivity).
  split; [reflexivity|]. split; [reflexivity|].
  exact (proj1 (toasts_always_fresh es [] None 1000 t Ht)).
Defined.

(** ** Likes in every reachable state *)

Lemma nth_error_take_drop {A} (l : list A) (n : nat) (k : A) :
  nth_error l n = Some k -> l = firstn n l ++ k :: skipn (S n) l.
Proof.
  revert n; induction l as [|x l IH]; intros [|n]; cbn; try discriminate.
  - now intros [= ->].
  - intros H. f_equal. now apply IH.
Qed.

Lemma likesOf_app (l1 l2 : list Pending) :
  likesOf (l1 ++ l2) = likesOf l1 ++ likesOf l2.
Proof. apply flat_map_app. Qed.

Lemma resume_likeEffect (n : nat) (k : Pending) (r : Settled) (s : AppState) :
  nth_error (inflight (world s)) n = Some k ->
  likeEffect s (resume k r (setWorld (settled n) s)).
Proof.
  intros Hnth. apply nth_error_take_drop in Hnth.
  assert (Hpl : pendingLikes s
                = likesOf (firstn n (inflight (world s))) ++ likesOf [k]
                  ++ likesOf (skipn (S n) (inflight (world s)))).
  { unfold pendingLikes. rewrite Hnth at 1.
    change (k :: skipn (S n) (inflight (world s)))
      with ([k] ++ skipn (S n) (inflight (world s))).
    now rewrite !likesOf_app. }
  assert (Hrest : forall s', inflight (world s')
                    = firstn n (inflight (world s)) ++ skipn (S n) (inflight (world s)) ->
                  (forall postId, k <> AwaitLike postId) ->
                  pendingLikes s' = pendingLikes s).
  { intros s' Hs' Hk. rewrite Hpl. unfold pendingLikes. rewrite Hs', likesOf_app.
    destruct k; try reflexivity. now contradiction (Hk postId). }
  destruct k as [caller|cur|posts0 tgt|postId].
  - left. destruct caller as [cur|]; cbn [resume]; unfold fetchPosts_settled;
      destruct r as [data|m]; try destruct (postsData data);
      (split; [reflexivity | split; [reflexivity | now apply Hrest]]).
  - left. destruct r as [data|m]; cbn [resume handleFormSubmit_settled].
    + split; [reflexivity | split; [reflexivity|]].
      unfold pendingLikes at 1. cbn -[firstn skipn likesOf].
      rewrite likesOf_app. cbn [likesOf flat_map]. rewrite app_nil_r.
      now apply (Hrest (setWorld (settled n) s)).
    + split; [reflexivity | split; [reflexivity | now apply Hrest]].
  - left. destruct r as [data|m];
      (split; [reflexivity | split; [reflexivity | now apply Hrest]]).
  - right. right.
    exists postId, (likesOf (firstn n (inflight (world s)))),
      (likesOf (skipn (S n) (inflight (world s)))).
    split; [exact Hpl|].
    destruct r as [data|m].
    + split; [unfold pendingLikes; cbn -[firstn skipn likesOf];
              now rewrite likesOf_app|].
      left. split; reflexivity.
    + split; [unfold pendingLikes; cbn -[firstn skipn likesOf];
              now rewrite likesOf_app|].
      right. split; reflexivity.
Qed.

Lemma step_likeEffect (e : Event) (s : AppState) : likeEffect s (step e s).
Proof.
  assert (Hsame : forall k, (forall postId, k <> AwaitLike postId) ->
            likesOf (inflight (world s) ++ [k]) = pendingLikes s).
  { intros k Hk. rewrite likesOf_app. unfold pendingLikes.
    destruct k; try (cbn; now rewrite app_nil_r). now contradiction (Hk postId). }
  destruct e; cbn [step];
    try (left; repeat split; reflexivity).
  - left. repeat split. apply (Hsame (AwaitGet None)). discriminate.
  - left. rewrite elapse_unfold. repeat split.
  - destruct (nth_error (inflight (world s)) n) as [k|] eqn:Hnth.
    + now apply resume_likeEffect.
    + left. repeat split.
  - unfold handleLike. destruct (has (likedPostsSet s) postId) eqn:Hhas.
    + left. repeat split.
    + right. left. exists postId. split.
      * intros Hin. apply has_likedPostsSet in Hin. congruence.
      * repeat split. unfold pendingLikes. cbn -[likesOf].
        now rewrite likesOf_app.
  - left. unfold handleShare_settled. destruct ok; repeat split.
  - left. repeat split. apply (Hsame (AwaitSave (currentPost s))). discriminate.
  - left. repeat split.
    apply (Hsame (AwaitDelete (posts s) (postIdToDelete s))). discriminate.
Qed.

Lemma ListNoDup_snoc {A} (l : list A) (x : A) :
  List.NoDup l -> ~ In x l -> List.NoDup (l ++ [x]).
Proof.
  intros Hl Hx. apply List.NoDup_app; [exact Hl | repeat constructor; intros [] |].
  intros a Ha [<- | []]. now apply Hx.
Qed.

Lemma step_pendingLikes (e : Event) (s : AppState) :
  (List.NoDup (pendingLikes s) /\
   forall postId, In postId (pendingLikes s) -> In postId (likedPosts s)) ->
  List.NoDup (pendingLikes (step e s)) /\
  forall postId, In postId (pendingLikes (step e s)) ->
                 In postId (likedPosts (step e s)).
Proof.
  intros [Hnd Hsub].
  destruct (step_likeEffect e s)
    as [[Hl [_ Hp]] | [[x [Hfresh [Hl [_ Hp]]]] | [x [l1 [l2 [Hp [Hp' Hl]]]]]]].
  - rewrite Hl, Hp. now split.
  - rewrite Hl, Hp. split.
    + apply ListNoDup_snoc; [exact Hnd|]. intros Hin. now apply Hfresh, Hsub.
    + intros y Hy. apply in_app_or in Hy. apply in_or_app.
      destruct Hy as [Hy | Hy]; [left; now apply Hsub | now right].
  - rewrite Hp in Hnd, Hsub. rewrite Hp'.
    pose proof (List.NoDup_remove_2 _ _ _ Hnd) as Hgone.
    split; [now apply List.NoDup_remove_1 in Hnd|].
    intros y Hy.
    assert (Hold : In y (likedPosts s)).
    { apply Hsub. apply in_app_or in Hy. apply in_or_app.
      destruct Hy as [Hy | Hy]; [now left | right; now right]. }
    destruct Hl as [[-> _] | [-> _]]; [exact Hold|].
    apply filter_In. split; [exact Hold|].
    apply negb_true_iff, String.eqb_neq. intros ->. now apply Hgone.
Qed.

(** X8: one like request per post at a time. In every state the component can
    reach, no two like requests in flight are for the same post, and every post
    with a like request in flight is among the liked identifiers (so its like
    button is disabled and a further click would only raise the info
    toast). *)
Theorem one_like_in_flight (es : list Event) (liked : list string)
  (stored : option string) (t0 : Z) :
  let s := run es (initialState liked stored t0) in
  List.NoDup (pendingLikes s) /\
  forall postId, In postId (pendingLikes s) -> In postId (likedPosts s).
Proof.
  cbv zeta.
  assert (Hinit : List.NoDup (pendingLikes (initialState liked stored t0)) /\
                  forall postId, In postId (pendingLikes (initialState liked stored t0)) ->
                                 In postId (likedPosts (initialState liked stored t0))).
  { split; [constructor | intros x []]. }
  revert Hinit. generalize (initialState liked stored t0).
  induction es as [|e es IH]; intros s H; [exact H|].
  cbn. apply IH. now apply step_pendingLikes.
Qed.

Lemma one_like_in_flight_witness :
  let a := samplePost "a" "Result 2024" "Result" 3 in
  let b := samplePost "b" "Job Notice" "Job Notification" 0 in
  let es := [Mount; Settle 0 (Resolved (VArr [a; b])); ClickLike "a";
             ClickLike "b"; ClickLike "a"; Settle 0 (Rejected None);
             ClickLike "a"] in
  let s := run es (initialState [] None 1000) in
  pendingLikes s = ["b"; "a"] /\ In "a" (likedPosts s).
Proof.
  intros a b es s. split; [reflexivity|].
  apply (proj2 (one_like_in_flight es [] None 1000)).
  vm_compute. right. left. reflexivity.
Defined.

(** X9: the liked identifiers never repeat. If the list read at start-up has
    no repetition, the list has none after any run: a like adds an identifier
    only when it is not there, and a rollback only removes. *)
Theorem likedPosts_no_repetition (es : list Event) (s : AppState) :
  List.NoDup (likedPosts s) -> List.NoDup (likedPosts (run es s)).
Proof.
  revert s; induction es as [|e es IH]; intros s Hnd; [exact Hnd|].
  cbn. apply IH.
  destruct (step_likeEffect e s)
    as [[Hl _] | [[x [Hfresh [Hl _]]] | [x [l1 [l2 [_ [_ Hl]]]]]]].
  - now rewrite Hl.
  - rewrite Hl. now apply ListNoDup_snoc.
  - destruct Hl as [[-> _] | [-> _]]; [exact Hnd | now apply List.NoDup_filter].
Qed.

Lemma likedPosts_no_repetition_witness :
  let a := samplePost "a" "Result 2024" "Result" 3 in
  let es := [Mount; Settle 0 (Resolved (VArr [a])); ClickLike "a"; ClickLike "a";
             Settle 0 (Rejected None); ClickLike "a"] in
  List.NoDup (likedPosts (initialState ["z"] None 1000)) /\
  likedPosts (run es (initialState ["z"] None 1000)) = ["z"; "a"] /\
  List.NoDup (likedPosts (run es (initialState ["z"] None 1000))).
Proof.
  intros a es.
  assert (Hnd : List.NoDup (likedPosts (initialState ["z"] None 1000))).
  { repeat constructor. intros []. }
  split; [exact Hnd|]. split; [reflexivity|].
  exact (likedPosts_no_repetition es _ Hnd).
Defined.

Lemma step_writeThrows (e : Event) (s : AppState) :
  (exists b, e = StorageThrows b) \/
  writeThrows (world (step e s)) = writeThrows (world s).
Proof.
  destruct e; cbn [step]; try (right; reflexivity).
  - right. now rewrite elapse_unfold.
  - right. destruct (nth_error (inflight (world s)) n) as [k|]; [|reflexivity].
    destruct k as [[cur|]|cur|posts0 tgt|postId]; destruct r as [data|m];
      cbn [resume]; unfold fetchPosts_settled; try destruct (postsData data);
      reflexivity.
  - right. unfold handleLike. now destruct (has (likedPostsSet s) postId).
  - right. unfold handleShare_settled. now destruct ok.
  - left. now exists b.
Qed.

(** X10: what reaches [localStorage]. After any run the stored entry is
    either as it was at the start or the text "undefined": [setStoredValue]
    receives an updater function, [JSON.stringify] of a function is
    [undefined], and a write that throws leaves the entry alone. The liked
    identifiers themselves are never stored. As long as no write throws, the
    entry is "undefined" as soon as the liked identifiers have changed. *)
Theorem storage_never_holds_likes (es : list Event) (s : AppState) :
  let s' := run es s in
  (storage (world s') = storage (world s) \/
   storage (world s') = Some "undefined") /\
  (writeThrows (world s) = false ->
   (forall e, In e es -> e <> StorageThrows true) ->
   (likedPosts s' = likedPosts s /\ storage (world s') = storage (world s)) \/
   storage (world s') = Some "undefined").
Proof.
  cbv zeta. split.
  - assert (Hgen : forall s0,
      (storage (world s0) = storage (world s) \/
       storage (world s0) = Some "undefined") ->
      storage (world (run es s0)) = storage (world s) \/
      storage (world (run es s0)) = Some "undefined").
    { induction es as [|e es IH]; intros s0 H; [exact H|].
      cbn. apply IH.
      destruct (step_likeEffect e s0)
        as [[_ [Hs _]] | [[x [_ [_ [Hs _]]]] | [x [l1 [l2 [_ [_ Hl]]]]]]].
      - now rewrite Hs.
      - rewrite Hs. destruct (writeThrows (world s0)); [exact H | now right].
      - destruct Hl as [[_ ->] | [_ ->]]; [exact H|].
        destruct (writeThrows (world s0)); [exact H | now right]. }
    apply Hgen. now left.
  - intros Hok Hnever.
    assert (Hgen : forall s0,
      writeThrows (world s0) = false ->
      ((likedPosts s0 = likedPosts s /\ storage (world s0) = storage (world s)) \/
       storage (world s0) = Some "undefined") ->
      (likedPosts (run es s0) = likedPosts s /\
       storage (world (run es s0)) = storage (world s)) \/
      storage (world (run es s0)) = Some "undefined").
    { induction es as [|e es IH]; intros s0 Hw H; [exact H|].
      cbn. apply IH.
      - intros e' He'. apply Hnever. now right.
      - destruct (step_writeThrows e s0) as [[b ->] | ->]; [|exact Hw].
        destruct b; [|reflexivity].
        exfalso. now apply (Hnever (StorageThrows true)); [left|].
      - destruct (step_likeEffect e s0)
          as [[Hl [Hs _]] | [[x [_ [_ [Hs _]]]] | [x [l1 [l2 [_ [_ Hl]]]]]]].
        + now rewrite Hl, Hs.
        + right. now rewrite Hs, Hw.
        + destruct Hl as [[-> ->] | [_ ->]]; [exact H|]. right. now rewrite Hw. }
    apply Hgen; [exact Hok|]. left. split; reflexivity.
Qed.

Lemma storage_never_holds_likes_witness :
  let a := samplePost "a" "Result 2024" "Result" 3 in
  let s := run [Mount; Settle 0 (Resolved (VArr [a]))]
               (initialState [] (Some "[]") 1000) in
  let liked := run [ClickLike "a"] s in
  let full := run [StorageThrows true; ClickLike "a"] s in
  writeThrows (world s) = false /\
  (likedPosts liked = ["a"] /\ storage (world liked) = Some "undefined") /\
  (likedPosts full = ["a"] /\ storage (world full) = Some "[]").
Proof.
  intros a s liked full.
  assert (Hok : writeThrows (world s) = false) by reflexivity.
  split; [exact Hok|]. split; [|split; reflexivity].
  split; [reflexivity|].
  destruct (proj2 (storage_never_holds_likes [ClickLike "a"] s) Hok)
    as [[Hsame _] | Hundef].
  - intros e [<- | []]. discriminate.
  - exfalso. vm_compute in Hsame. discriminate Hsame.
  - exact Hundef.
Defined.

(** ** Loading *)

Lemma in_take_drop {A} (l : list A) (n : nat) (k x : A) :
  nth_error l n = Some k -> In x l -> x <> k ->
  In x (firstn n l ++ skipn (S n) l).
Proof.
  intros Hnth Hin Hne. apply nth_error_take_drop in Hnth.
  rewrite Hnth in Hin. apply in_app_or in Hin. apply in_or_app.
  destruct Hin as [Hin | [Hin | Hin]]; [now left | congruence | now right].
Qed.

Lemma step_fetching (e : Event) (s : AppState) :
  (loading s = true -> fetching s) ->
  loading (step e s) = true -> fetching (step e s).
Proof.
  intros Hinv.
  assert (Hgrow : forall k s',
            loading s' = loading s ->
            inflight (world s') = inflight (world s) ++ [k] ->
            loading s' = true -> fetching s').
  { intros k s' Hl Hi Hload. rewrite Hl in Hload.
    destruct (Hinv Hload) as [c Hc]. exists c. rewrite Hi.
    apply in_or_app. now left. }
  assert (Hkeep : forall s',
            loading s' = loading s ->
            inflight (world s') = inflight (world s) ->
            loading s' = true -> fetching s').
  { intros s' Hl Hi Hload. rewrite Hl in Hload.
    destruct (Hinv Hload) as [c Hc]. exists c. now rewrite Hi. }
  destruct e; cbn [step]; try (apply Hkeep; reflexivity).
  - intros _. exists None. cbn. apply in_or_app. right. now left.
  - rewrite elapse_unfold. apply Hkeep; reflexivity.
  - destruct (nth_error (inflight (world s)) n) as [k|] eqn:Hnth;
      [|exact Hinv].
    assert (Hdrop : forall s',
              loading s' = loading s ->
              inflight (world s')
              = firstn n (inflight (world s)) ++ skipn (S n) (inflight (world s)) ->
              (forall c, k <> AwaitGet c) ->
              loading s' = true -> fetching s').
    { intros s' Hl Hi Hk Hload. rewrite Hl in Hload.
      destruct (Hinv Hload) as [c Hc]. exists c. rewrite Hi.
      apply (in_take_drop _ _ k); [exact Hnth | exact Hc |].
      intros E. now apply (Hk c). }
    destruct k as [caller|cur|posts0 tgt|postId].
    + intros Hload. exfalso. revert Hload.
      destruct caller as [cur|]; cbn [resume]; unfold fetchPosts_settled;
        destruct r as [data|m]; try destruct (postsData data); discriminate.
    + destruct r as [data|m].
      * intros _. exists (Some cur). cbn. apply in_or_app. right. now left.
      * apply Hdrop; [reflexivity | reflexivity | discriminate].
    + destruct r as [data|m];
        (apply Hdrop; [reflexivity | reflexivity | discriminate]).
    + destruct r as [data|m];
        (apply Hdrop; [reflexivity | reflexivity | discriminate]).
  - unfold handleLike. destruct (has (likedPostsSet s) postId).
    + apply Hkeep; reflexivity.
    + apply (Hgrow (AwaitLike postId)); reflexivity.
  - unfold handleShare_settled. destruct ok; apply Hkeep; reflexivity.
  - apply (Hgrow (AwaitSave (currentPost s))); reflexivity.
  - apply (Hgrow (AwaitDelete (posts s) (postIdToDelete s))); reflexivity.
Qed.

(** X11: the loading cards are never stuck. Once the component has mounted,
    in every state it can reach the six loading cards are on screen only
    while a GET of the posts is in flight: each GET that settles, in success
    or in failure, switches loading off. *)
Theorem loading_means_fetching (es : list Event) (liked : list string)
  (stored : option string) (t0 : Z) :
  let s := run (Mount :: es) (initialState liked stored t0) in
  (mainContent s = LoadingCards 6 <-> loading s = true) /\
  (loading s = true -> fetching s).
Proof.
  cbv zeta. split.
  - unfold mainContent. destruct (loading _); [tauto|].
    split; [|discriminate]. destruct (0 <? _)%nat; discriminate.
  - cbn [run fold_left].
    assert (Hinit : loading (step Mount (initialState liked stored t0)) = true ->
                    fetching (step Mount (initialState liked stored t0))).
    { intros _. exists None. now left. }
    revert Hinit. generalize (step Mount (initialState liked stored t0)).
    induction es as [|e es IH]; intros s H; [exact H|].
    cbn. apply IH. now apply step_fetching.
Qed.

Lemma loading_means_fetching_witness :
  let a := samplePost "a" "Result 2024" "Result" 3 in
  let es := [Settle 0 (Resolved (VArr [a])); ClickCreate; SubmitForm;
             Settle 0 (Resolved VNull)] in
  let s := run (Mount :: es) (initialState [] None 1000) in
  loading s = true /\ inflight (world s) = [AwaitGet (Some None)] /\ fetching s.
Proof.
  intros a es s.
  assert (Hload : loading s = true) by reflexivity.
  split; [exact Hload|]. split; [reflexivity|].
  exact (proj2 (loading_means_fetching es [] None 1000) Hload).
Defined.

(** ** Saving a post *)

(** X12: a save that fails. When the POST or PUT is rejected, the form dialog
    and the post under edit are left as they are, the collection is
    unchanged, no refresh is requested, and one error toast is added: "Error: "
    followed by the server's message when there is a non-empty one and by
    "Could not save post." otherwise. *)
Theorem save_failure_keeps_form (s : AppState) (n : nat) (cur : option Post)
  (m : option string) :
  nth_error (inflight (world s)) n = Some (AwaitSave cur) ->
  let s1 := step (Settle n (Rejected m)) s in
  posts s1 = posts s /\
  isPostModalOpen s1 = isPostModalOpen s /\
  currentPost s1 = currentPost s /\
  loading s1 = loading s /\
  sent (world s1) = sent (world s) /\
  inflight (world s1)
  = firstn n (inflight (world s)) ++ skipn (S n) (inflight (world s)) /\
  toasts s1 = toasts s ++
    [mkToast (now (world s))
       ("Error: " ++ messageOr m "Could not save post.") error] /\
  (forall msg, m = Some msg -> msg <> "" ->
     messageOr m "Could not save post." = msg).
Proof.
  intros Hnth s1. subst s1. cbn [step]. rewrite Hnth. cbn.
  repeat split; try reflexivity.
  intros msg -> Hne. cbn. destruct (String.eqb_spec msg ""); congruence.
Qed.

Lemma save_failure_keeps_form_witness :
  let a := samplePost "a" "Result 2024" "Result" 3 in
  let s := run [Mount; Settle 0 (Resolved (VArr [a])); ClickEdit a; SubmitForm]
               (initialState [] None 1000) in
  nth_error (inflight (world s)) 0 = Some (AwaitSave (Some a)) /\
  sent (world s) = [GetPosts; PutPost "a"] /\
  (let s1 := step (Settle 0 (Rejected (Some "Title is required"))) s in
   isPostModalOpen s1 = true /\ currentPost s1 = Some a /\
   List.map message (toasts s1) = ["Error: Title is required"]).
Proof.
  intros a s.
  assert (Hnth : nth_error (inflight (world s)) 0 = Some (AwaitSave (Some a)))
    by reflexivity.
  split; [exact Hnth|]. split; [reflexivity|].
  pose proof (save_failure_keeps_form s 0 (Some a) (Some "Title is required") Hnth)
    as H.
  cbv zeta in H. destruct H as [_ [Hopen [Hcur [_ [_ [_ [Htoast _]]]]]]].
  split; [rewrite Hopen; reflexivity|]. split; [rewrite Hcur; reflexivity|].
  rewrite Htoast. reflexivity.
Defined.

(** X13: a save that succeeds. Submitting, the success of the save and then
    the settling of the refresh it triggers (in success or in failure) send
    exactly the save (PUT for a post under edit, POST otherwise) followed by
    one GET, close the form, clear the post under edit, switch loading off,
    and end with the toast "Post updated successfully!" or "Post created
    successfully!" according to the post that was under edit when the form
    was submitted. When the refresh fails the collection is emptied and the
    toast of that failure comes just before the one that reports success. *)
Theorem save_success_closes_form (s : AppState) (d : JsVal) (r : Settled) :
  let n := List.length (inflight (world s)) in
  let s1 := step SubmitForm s in
  let s2 := step (Settle n (Resolved d)) s1 in
  let s3 := step (Settle n r) s2 in
  let verb := match currentPost s with Some _ => "updated" | None => "created" end in
  let done := mkToast (now (world s)) ("Post " ++ verb ++ " successfully!") success in
  sent (world s3)
  = sent (world s) ++ [match currentPost s with
                       | Some p => PutPost (_id p)
                       | None => PostPost
                       end; GetPosts] /\
  inflight (world s3) = inflight (world s) /\
  isPostModalOpen s3 = false /\ currentPost s3 = None /\ loading s3 = false /\
  (exists before, toasts s3 = before ++ [done]) /\
  (forall m, r = Rejected m ->
     posts s3 = [] /\
     toasts s3 = toasts s ++
       [mkToast (now (world s))
          "Could not fetch posts. Please try again later." error; done]).
Proof.
  intros n s1 s2 s3 verb done.
  destruct (settle_appended (AwaitSave (currentPost s)) (inflight (world s)))
    as [Hnth1 Hrest1].
  destruct (settle_appended (AwaitGet (Some (currentPost s))) (inflight (world s)))
    as [Hnth2 Hrest2].
  assert (E2 : s2 = fetchPosts (Some (currentPost s))
                      (setWorld (settled n) (handleFormSubmit s))).
  { subst s2 s1. cbn [step]. unfold handleFormSubmit at 1. cbn -[handleFormSubmit].
    cbn in Hnth1. fold n in Hnth1. now rewrite Hnth1. }
  assert (Hin2 : inflight (world s2) = inflight (world s) ++ [AwaitGet (Some (currentPost s))]).
  { rewrite E2. cbn. cbn in Hrest1. fold n in Hrest1. now rewrite Hrest1. }
  clearbody s2. clear s1.
  assert (E3 : s3 = handleFormSubmit_done (currentPost s)
                      (fetchPosts_settled r (setWorld (settled n) s2))).
  { subst s3. cbn [step]. rewrite Hin2. fold n in Hnth2. now rewrite Hnth2. }
  clearbody s3.
  assert (Hin3 : inflight (world s3) = inflight (world s)).
  { rewrite E3. unfold fetchPosts_settled.
    destruct r as [data|m]; try destruct (postsData data); cbn;
      rewrite Hin2; fold n in Hrest2; exact Hrest2. }
  split.
  { rewrite E3, E2. unfold fetchPosts_settled.
    destruct r as [data|m]; try destruct (postsData data); cbn;
      now rewrite <- app_assoc. }
  split; [exact Hin3|].
  split; [rewrite E3; reflexivity|]. split; [rewrite E3; reflexivity|].
  split.
  { rewrite E3. unfold fetchPosts_settled.
    destruct r as [data|m]; try destruct (postsData data); reflexivity. }
  split.
  - rewrite E3, E2. unfold fetchPosts_settled.
    destruct r as [data|m]; try destruct (postsData data); cbn; eexists; reflexivity.
  - intros m ->. rewrite E3, E2. cbn. split; [reflexivity|].
    now rewrite <- app_assoc.
Qed.

Lemma save_success_closes_form_witness :
  let a := samplePost "a" "Result 2024" "Result" 3 in
  let s := run [Mount; Settle 0 (Resolved (VArr [a])); ClickCreate]
               (initialState [] None 1000) in
  let s3 := run [SubmitForm; Settle 0 (Resolved VNull); Settle 0 (Rejected None)] s in
  posts s = [a] /\ posts s3 = [] /\ isPostModalOpen s3 = false /\
  List.map message (toasts s3)
  = ["Could not fetch posts. Please try again later.";
     "Post created successfully!"].
Proof.
  intros a s s3.
  pose proof (save_success_closes_form s VNull (Rejected None)) as H.
  cbv zeta in H. destruct H as [_ [_ [Hopen [_ [_ [_ Hfail]]]]]].
  destruct (Hfail None eq_refl) as [Hposts Htoasts].
  split; [reflexivity|]. split; [exact Hposts|]. split; [exact Hopen|].
  change (toasts s3) with
    (toasts (step (Settle (List.length (inflight (world s))) (Rejected None))
       (step (Settle (List.length (inflight (world s))) (Resolved VNull))
          (step SubmitForm s)))).
  rewrite Htoasts. reflexivity.
Defined.

(** ** A like that succeeds *)

(** X14: a like whose request succeeds. From a state in which [postId] is not
    yet liked, the click, any lapse of time and the success of the request
    leave the like counts of the posts with that identifier raised by one,
    the identifier among the liked ones (so the card's button stays
    disabled), no toast added by the settling, and the request sent once with
    nothing left pending. *)
Theorem like_success_commits (s : AppState) (postId : string) (ms : N) (d : JsVal) :
  ~ In postId (likedPosts s) ->
  let s1 := step (ClickLike postId) s in
  let s2 := step (Elapse ms) s1 in
  let s3 := step (Settle (List.length (inflight (world s))) (Resolved d)) s2 in
  posts s3 = List.map (bumpLikes postId 1) (posts s) /\
  likedPosts s3 = likedPosts s ++ [postId] /\
  (forall p, _id p = postId -> isLiked s3 p = true) /\
  toasts s3 = toasts s2 /\
  sent (world s3) = sent (world s) ++ [PostLike postId] /\
  inflight (world s3) = inflight (world s).
Proof.
  intros Hfresh s1 s2 s3.
  assert (E1 : s1 = setWorld (request (PostLike postId) (AwaitLike postId))
                 (setLikedPosts (fun prev => prev ++ [postId])
                    (setPosts (List.map (bumpLikes postId 1)) s))).
  { subst s1. cbn [step]. unfold handleLike.
    now rewrite (has_likedPostsSet_false s postId Hfresh). }
  destruct (settle_appended (AwaitLike postId) (inflight (world s))) as [Hnth Hrest].
  assert (E3 : s3 = setWorld (settled (List.length (inflight (world s)))) s2).
  { subst s3. cbn [step]. subst s2. cbn [step]. rewrite elapse_unfold.
    rewrite E1. cbn. cbn in Hnth. now rewrite Hnth. }
  assert (E2 : s2 = elapse ms s1) by reflexivity.
  rewrite elapse_unfold in E2. cbv zeta in E2.
  assert (Hliked : likedPosts s3 = likedPosts s ++ [postId])
    by (rewrite E3, E2, E1; reflexivity).
  split; [rewrite E3, E2, E1; reflexivity|]. split; [exact Hliked|].
  split.
  - intros p <-. unfold isLiked. apply has_likedPostsSet. rewrite Hliked.
    apply in_or_app. right. now left.
  - split; [rewrite E3; reflexivity|].
    split; [rewrite E3, E2, E1; reflexivity|].
    rewrite E3, E2, E1. cbn. cbn in Hrest. exact Hrest.
Qed.

Lemma like_success_commits_witness :
  let a := samplePost "a" "Result 2024" "Result" 3 in
  let s := run [Mount; Settle 0 (Resolved (VArr [a]))] (initialState [] None 1000) in
  ~ In "a" (likedPosts s) /\
  List.map likes (posts (run [ClickLike "a"; Elapse 80; Settle 0 (Resolved VNull)] s))
  = [4%Z].
Proof.
  intros a s.
  assert (Hfresh : ~ In "a" (likedPosts s)) by (vm_compute; tauto).
  split; [exact Hfresh|].
  pose proof (like_success_commits s "a" 80 VNull Hfresh) as H.
  cbv zeta in H. destruct H as [H _].
  change (posts (run [ClickLike "a"; Elapse 80; Settle 0 (Resolved VNull)] s))
    with (posts (step (Settle (List.length (inflight (world s))) (Resolved VNull))
                   (step (Elapse 80) (step (ClickLike "a") s)))).
  rewrite H. reflexivity.
Defined.

(** ** The form dialog *)

(** X15: the size limit of the media file. A picked file is taken (it becomes
    the file to send and its object address the preview, without alert)
    exactly when it has at most 10 * 1024 * 1024 bytes; a larger file raises
    the alert and changes nothing, so a file picked before stays the one to
    send. Clearing the input drops the file and shows the media of the post
    under edit again. *)
Theorem file_size_limit (f : PostFormModal.File) (post : option Post)
  (st : PostFormModal.State) :
  let picked := PostFormModal.handleFileChange (Some f) post st in
  ((PostFormModal.size f <= 10485760)%Z <->
   snd picked = false /\
   PostFormModal.mediaFile (fst picked) = Some f /\
   PostFormModal.preview (fst picked) = Some (PostFormModal.objectURL f)) /\
  ((10485760 < PostFormModal.size f)%Z <-> picked = (st, true)) /\
  PostFormModal.formData (fst picked) = PostFormModal.formData st /\
  PostFormModal.handleFileChange None post (fst picked)
  = (PostFormModal.mkState (PostFormModal.formData st) None (mediaUrlOrNull post)
                           (PostFormModal.isSubmitting st), false).
Proof.
  cbv zeta. unfold PostFormModal.handleFileChange.
  change (10 * 1024 * 1024)%Z with 10485760%Z.
  destruct (Z.ltb_spec 10485760 (PostFormModal.size f)) as [Hbig | Hok]; cbn.
  - repeat split; try reflexivity; try lia; try tauto;
      try (intros [H _]; discriminate H).
  - repeat split; try reflexivity; try lia; try tauto;
      try (intros H; injection H as _ H; discriminate H).
Qed.

Lemma file_size_limit_witness :
  let ok := PostFormModal.mkFile 10485760 "image/png" "blob:1" in
  let big := PostFormModal.mkFile 10485761 "video/mp4" "blob:2" in
  let st := fst (PostFormModal.handleFileChange (Some ok) None PostFormModal.initial) in
  PostFormModal.mediaFile st = Some ok /\
  PostFormModal.handleFileChange (Some big) None st = (st, true).
Proof.
  intros ok big st. split.
  - apply (proj1 (file_size_limit ok None PostFormModal.initial)).
    cbn. lia.
  - apply (proj1 (proj2 (file_size_limit big None st))). cbn. lia.
Defined.

Lemma trimEnd_cons (c : ascii) (s : string) :
  Js.trimEnd (String c s)
  = match Js.trimEnd s with
    | EmptyString => if Js.isWhiteSpace c then EmptyString else String c EmptyString
    | String d t => String c (String d t)
    end.
Proof. reflexivity. Qed.

Lemma trimEnd_idem (s : string) : Js.trimEnd (Js.trimEnd s) = Js.trimEnd s.
Proof.
  induction s as [|c s IH]; [reflexivity|]. rewrite trimEnd_cons.
  destruct (Js.trimEnd s) as [|d t] eqn:E.
  - destruct (Js.isWhiteSpace c) eqn:Hc; [reflexivity|].
    rewrite trimEnd_cons. cbn [Js.trimEnd]. now rewrite Hc.
  - rewrite trimEnd_cons, IH. reflexivity.
Qed.

Lemma trimStart_head (s : string) :
  Js.trimStart s = "" \/
  exists c r, Js.trimStart s = String c r /\ Js.isWhiteSpace c = false.
Proof.
  induction s as [|c s IH]; [now left|]. cbn [Js.trimStart].
  destruct (Js.isWhiteSpace c) eqn:Hc; [exact IH|]. right. now exists c, s.
Qed.

Lemma trimEnd_head (c : ascii) (r : string) :
  Js.isWhiteSpace c = false -> exists r', Js.trimEnd (String c r) = String c r'.
Proof.
  intros Hc. rewrite trimEnd_cons. destruct (Js.trimEnd r) as [|d t].
  - rewrite Hc. now exists "".
  - now exists (String d t).
Qed.

Lemma trim_idem (s : string) : Js.trim (Js.trim s) = Js.trim s.
Proof.
  unfold Js.trim. destruct (trimStart_head s) as [-> | [c [r [-> Hc]]]];
    [reflexivity|].
  destruct (trimEnd_head c r Hc) as [r' E]. rewrite E.
  cbn [Js.trimStart]. rewrite Hc, <- E. apply trimEnd_idem.
Qed.

Lemma trim_blank (s : string) :
  (forall c, In c (list_ascii_of_string s) -> Js.isWhiteSpace c = true) ->
  Js.trim s = "".
Proof.
  intros Hall. unfold Js.trim.
  assert (E : Js.trimStart s = "").
  { induction s as [|c s IH]; [reflexivity|]. cbn [Js.trimStart].
    rewrite (Hall c) by now left. apply IH. intros d Hd. apply Hall. now right. }
  now rewrite E.
Qed.

(** X16: what the form submits. When no submission is pending, [handleSubmit]
    marks the form as submitting and hands over, in this order, the title and
    the content with the white space at both ends removed (trimming them again
    changes nothing; a title of white space only goes out empty), the category
    as chosen, and the media file when one was picked; submitting again right
    away hands over nothing. *)
Theorem submit_payload (st : PostFormModal.State) :
  PostFormModal.isSubmitting st = false ->
  let d := PostFormModal.formData st in
  let t := Js.trim (PostFormModal.title d) in
  let c := Js.trim (PostFormModal.content d) in
  let st1 := fst (PostFormModal.handleSubmit st) in
  snd (PostFormModal.handleSubmit st)
  = Some ([("title", PostFormModal.Text t);
           ("category", PostFormModal.Text (PostFormModal.category d));
           ("content", PostFormModal.Text c)]
          ++ match PostFormModal.mediaFile st with
             | Some f => [("mediaFile", PostFormModal.Blob f)]
             | None => []
             end) /\
  Js.trim t = t /\ Js.trim c = c /\
  ((forall x, In x (list_ascii_of_string (PostFormModal.title d)) ->
              Js.isWhiteSpace x = true) -> t = "") /\
  PostFormModal.isSubmitting st1 = true /\
  PostFormModal.handleSubmit st1 = (st1, None).
Proof.
  intros Hidle d t c st1. subst st1 t c d.
  unfold PostFormModal.handleSubmit. rewrite Hidle. cbn.
  repeat split; try reflexivity; try apply trim_idem. apply trim_blank.
Qed.

Lemma submit_payload_witness :
  let st := PostFormModal.handleInputChange PostFormModal.Title "  Result 2024 "
              PostFormModal.initial in
  PostFormModal.isSubmitting st = false /\
  snd (PostFormModal.handleSubmit st)
  = Some [("title", PostFormModal.Text "Result 2024");
          ("category", PostFormModal.Text "Job Notification");
          ("content", PostFormModal.Text "")].
Proof.
  intros st.
  assert (Hidle : PostFormModal.isSubmitting st = false) by reflexivity.
  split; [exact Hidle|].
  pose proof (submit_payload st Hidle) as H. cbv zeta in H.
  destruct H as [H _]. rewrite H. reflexivity.
Defined.

(** ** One submission at a time *)

Lemma submissions_appended (s s' : AppState) (k : Pending) :
  inflight (world s') = inflight (world s) ++ [k] ->
  List.filter awaitedBySubmit (inflight (world s'))
  = List.filter awaitedBySubmit (inflight (world s))
    ++ (if awaitedBySubmit k then [k] else []).
Proof. intros ->. rewrite List.filter_app. cbn. now destruct (awaitedBySubmit k). Qed.

Lemma step_keeps_submissions (e : Event) (s : AppState) :
  e <> SubmitForm -> (forall n r, e <> Settle n r) ->
  List.filter awaitedBySubmit (inflight (world (step e s)))
  = List.filter awaitedBySubmit (inflight (world s)).
Proof.
  intros Hsub Hset.
  assert (Hplus : forall s' k, awaitedBySubmit k = false ->
            inflight (world s') = inflight (world s) ++ [k] ->
            List.filter awaitedBySubmit (inflight (world s'))
            = List.filter awaitedBySubmit (inflight (world s))).
  { intros s' k Hk Hi. rewrite (submissions_appended s s' k Hi), Hk.
    apply app_nil_r. }
  destruct e; cbn [step]; try reflexivity.
  - now apply (Hplus _ (AwaitGet None)).
  - now rewrite elapse_unfold.
  - now contradiction (Hset n r).
  - unfold handleLike. destruct (has (likedPostsSet s) postId); [reflexivity|].
    now apply (Hplus _ (AwaitLike postId)).
  - unfold handleShare_settled. now destruct ok.
  - now contradiction Hsub.
  - now apply (Hplus _ (AwaitDelete (posts s) (postIdToDelete s))).
Qed.

Lemma filter_take_drop {A} (f : A -> bool) (l : list A) (n : nat) (k : A) :
  nth_error l n = Some k ->
  List.length (List.filter f l)
  = List.length (List.filter f (firstn n l ++ skipn (S n) l))
    + (if f k then 1 else 0).
Proof.
  intros Hnth. rewrite (nth_error_take_drop _ _ _ Hnth) at 1.
  rewrite !List.filter_app, !length_app. cbn [List.filter].
  destruct (f k); cbn; lia.
Qed.

Lemma settle_submissions (n : nat) (k : Pending) (r : Settled) (s : AppState) :
  nth_error (inflight (world s)) n = Some k ->
  List.length (List.filter awaitedBySubmit
                 (inflight (world (resume k r (setWorld (settled n) s)))))
  + (if awaitedBySubmit k then 1 else 0)
  = List.length (List.filter awaitedBySubmit (inflight (world s)))
    + (if awaitedBySubmit k && negb (submitSettles k r) then 1 else 0).
Proof.
  intros Hnth. rewrite (filter_take_drop awaitedBySubmit _ _ _ Hnth).
  set (rest := firstn n (inflight (world s)) ++ skipn (S n) (inflight (world s))).
  assert (Hrest : forall s', inflight (world s') = rest ->
            List.length (List.filter awaitedBySubmit (inflight (world s')))
            = List.length (List.filter awaitedBySubmit rest)).
  { now intros s' ->. }
  destruct k as [[cur|]|cur|posts0 tgt|postId]; cbn [resume awaitedBySubmit submitSettles].
  - rewrite (Hrest _); [cbn; lia|].
    unfold fetchPosts_settled.
    destruct r as [data|m]; try destruct (postsData data); reflexivity.
  - rewrite (Hrest _); [cbn; lia|].
    unfold fetchPosts_settled.
    destruct r as [data|m]; try destruct (postsData data); reflexivity.
  - destruct r as [data|m]; cbn [handleFormSubmit_settled].
    + rewrite (submissions_appended (setWorld (settled n) s) _ (AwaitGet (Some cur)))
        by reflexivity.
      rewrite length_app. cbn -[firstn skipn]. fold rest. lia.
    + rewrite (Hrest _) by reflexivity. cbn. lia.
  - destruct r as [data|m]; (rewrite (Hrest _) by reflexivity); cbn; lia.
  - destruct r as [data|m]; (rewrite (Hrest _) by reflexivity); cbn; lia.
Qed.

Lemma pageStep_submitCount (e : PageEvent) (pg : Page) :
  submitCount pg = (if PostFormModal.isSubmitting (form pg) then 1 else 0) ->
  submitCount (pageStep e pg)
  = (if PostFormModal.isSubmitting (form (pageStep e pg)) then 1 else 0).
Proof.
  unfold submitCount, submissions. intros Hinv.
  destruct e as [e| |name value|file].
  - destruct e;
      try (cbn [pageStep app form];
           rewrite step_keeps_submissions by (try discriminate; intros; discriminate);
           exact Hinv).
    + cbn [pageStep app form].
      destruct (nth_error (inflight (world (app pg))) n) as [k|] eqn:Hnth.
      * cbn [step]. rewrite Hnth.
        pose proof (settle_submissions n k r (app pg) Hnth) as Hcount.
        rewrite Hinv in Hcount.
        destruct (submitSettles k r) eqn:Hs.
        -- assert (Hk : awaitedBySubmit k = true).
           { destruct k as [[?|]|?|? ?|?]; destruct r; cbn in Hs |- *;
               congruence. }
           rewrite Hk in Hcount. cbn in Hcount |- *.
           destruct (PostFormModal.isSubmitting (form pg)); lia.
        -- destruct (awaitedBySubmit k); cbn in Hcount; lia.
      * cbn [step]. rewrite Hnth. exact Hinv.
    + cbn [pageStep]. unfold PostFormModal.handleSubmit.
      destruct (PostFormModal.isSubmitting (form pg)) eqn:Hsub;
        [cbn; rewrite Hsub; exact Hinv|].
      cbn [app form PostFormModal.isSubmitting].
      rewrite (submissions_appended (app pg) _ (AwaitSave (currentPost (app pg))))
        by reflexivity.
      rewrite length_app. cbn. lia.
  - cbn [pageStep app form]. unfold PostFormModal.onOpen.
    destruct (isPostModalOpen (app pg)); exact Hinv.
  - exact Hinv.
  - cbn [pageStep app form]. unfold PostFormModal.handleFileChange.
    destruct file as [f|]; [|exact Hinv].
    destruct (10 * 1024 * 1024 <? PostFormModal.size f)%Z; exact Hinv.
Qed.

(** X17: one submission at a time. In every state the page can reach,
    [handleFormSubmit] is waiting on at most one request (a save, or the
    refresh that follows it), and it is waiting on one exactly while the form
    is marked as submitting: a submit during that time sends nothing. *)
Theorem one_submission_in_flight (es : list PageEvent) (liked : list string)
  (stored : option string) (t0 : Z) :
  let pg := pageRun es (initialPage liked stored t0) in
  List.length (submissions pg)
  = (if PostFormModal.isSubmitting (form pg) then 1 else 0) /\
  List.length (submissions pg) <= 1 /\
  (PostFormModal.isSubmitting (form pg) = true ->
   pageStep (OfApp SubmitForm) pg = pg).
Proof.
  cbv zeta.
  assert (Hinv : submitCount (pageRun es (initialPage liked stored t0))
                 = (if PostFormModal.isSubmitting
                         (form (pageRun es (initialPage liked stored t0)))
                    then 1 else 0)).
  { assert (Hinit : submitCount (initialPage liked stored t0)
                    = (if PostFormModal.isSubmitting (form (initialPage liked stored t0))
                       then 1 else 0)) by reflexivity.
    revert Hinit. generalize (initialPage liked stored t0).
    induction es as [|e es IH]; intros pg H; [exact H|].
    cbn. apply IH. now apply pageStep_submitCount. }
  unfold submitCount in Hinv. split; [exact Hinv|]. split.
  - rewrite Hinv. destruct (PostFormModal.isSubmitting _); lia.
  - intros Hsub. cbn [pageStep]. unfold PostFormModal.handleSubmit.
    now rewrite Hsub.
Qed.

Lemma one_submission_in_flight_witness :
  let es := [OfApp Mount; OfApp ClickCreate; OpenEffect;
             InputChange PostFormModal.Title "Result 2024";
             OfApp SubmitForm; OfApp SubmitForm] in
  let pg := pageRun es (initialPage [] None 1000) in
  PostFormModal.isSubmitting (form pg) = true /\
  sent (world (app pg)) = [GetPosts; PostPost] /\
  pageStep (OfApp SubmitForm) pg = pg.
Proof.
  intros es pg.
  assert (Hsub : PostFormModal.isSubmitting (form pg) = true) by reflexivity.
  split; [exact Hsub|]. split; [reflexivity|].
  exact (proj2 (proj2 (one_submission_in_flight es [] None 1000)) Hsub).
Defined.

Lemma no_posts_message_iff_witness :
  let s := run [Mount; Settle 0 (Resolved (VArr []))] (initialState [] None 1000) in
  mainContent s = EmptyState "No posts have been published yet".
Proof.
  intros s. apply (proj2 (no_posts_message_iff s)). repeat split; reflexivity.
Defined.
